(** * Sentinel agent: multi-agent coordinator and replay learning system

    A shallow embedding of the two classes of the repository that carry its
    logic, [MultiAgentCoordinator] (agents/multi-agent-coordinator.js) and
    [ReplaySystem] (learning/replay-system.js), and the properties of its
    specification proved or refuted on them.

    Conventions of the embedding:
    - a JavaScript Number is an IEEE 754 binary64 value, the kernel's [float];
      array lengths and loop counters are [nat];
    - a JavaScript [Map] is an association list in insertion order: [Map.set]
      on a present key replaces the value where it stands, on a fresh key
      appends;
    - an object mutated through a reference obtained from a [Map] is an
      update in place of the entry ([map_update]);
    - values that the code never inspects (subtasks, results, errors, the
      extra fields of an action, the content of a snapshot) are JavaScript
      values, [jsvalue]: [undefined], [null], booleans, numbers, strings,
      arrays and plain objects. Values of other kinds (functions, symbols,
      BigInts, dates, [Map]s, [Set]s, instances of classes, cyclic
      structures) are outside the embedding, and what is proved about
      persistence is proved for stores that hold none of them;
    - random identifiers and clock readings are arguments of the operation
      that draws them;
    - the logger is left out: it has no effect on the state; so is
      [synchronizeAgents], which changes nothing in the coordinator. *)

From Stdlib Require Import String Ascii.
From Stdlib Require Import ZArith Lia Floats List Bool Sorted Permutation.
Import ListNotations.
Set Warnings "-inexact-float,-register-all".
Local Open Scope string_scope.

(** ** JavaScript values *)

Definition number := float.

Inductive jsvalue : Type :=
| VUndefined
| VNull
| VBool (b : bool)
| VNum (x : number)
| VStr (s : string)
| VArr (items : list jsvalue)
| VObj (props : list (string * jsvalue)).

(** Abrupt completion of an expression: [Throw e] is a thrown exception. *)
Inductive completion (A : Type) : Type :=
| Normal (a : A)
| Throw (e : jsvalue).
Arguments Normal {A} a.
Arguments Throw {A} e.

Definition TypeError : jsvalue := VObj [("name", VStr "TypeError")].

(** The Number of an array length (below 2^32, so the conversion is exact). *)
Definition number_of_nat (n : nat) : number :=
  PrimFloat.of_uint63 (Uint63.of_Z (Z.of_nat n)).

(** ToBoolean. *)
Definition truthy (v : jsvalue) : bool :=
  match v with
  | VUndefined | VNull => false
  | VBool b => b
  | VNum x => negb (PrimFloat.is_zero x || PrimFloat.is_nan x)
  | VStr s => negb (s =? "")
  | VArr _ | VObj _ => true
  end.

(** [a || b] *)
Definition or_else (a b : jsvalue) : jsvalue := if truthy a then a else b.

Fixpoint lookup_prop (name : string) (props : list (string * jsvalue)) : jsvalue :=
  match props with
  | [] => VUndefined
  | (k, v) :: rest => if k =? name then v else lookup_prop name rest
  end.

(** [v.name] for a name that is neither [length] nor an index: a TypeError on
    [undefined] and [null], [undefined] on the other primitives and on arrays. *)
Definition member (v : jsvalue) (name : string) : completion jsvalue :=
  match v with
  | VUndefined | VNull => Throw TypeError
  | VObj props => Normal (lookup_prop name props)
  | _ => Normal VUndefined
  end.

(** SameValueZero, the key equality of [Map]. Arrays and objects are compared
    by identity, and the values met here come out of [JSON.parse], each one a
    fresh object: never the same. *)
Definition same_value_zero (a b : jsvalue) : bool :=
  match a, b with
  | VUndefined, VUndefined => true
  | VNull, VNull => true
  | VBool x, VBool y => Bool.eqb x y
  | VNum x, VNum y => (x =? y)%float || (PrimFloat.is_nan x && PrimFloat.is_nan y)
  | VStr x, VStr y => (x =? y)
  | _, _ => false
  end.

(** ** Map, in insertion order *)

Section JSMap.
Context {K V : Type}.
Variable same : K -> K -> bool.

Fixpoint map_has (k : K) (m : list (K * V)) : bool :=
  match m with
  | [] => false
  | (k', _) :: rest => same k' k || map_has k rest
  end.

Fixpoint map_get (k : K) (m : list (K * V)) : option V :=
  match m with
  | [] => None
  | (k', v) :: rest => if same k' k then Some v else map_get k rest
  end.

Fixpoint map_set (k : K) (v : V) (m : list (K * V)) : list (K * V) :=
  match m with
  | [] => [(k, v)]
  | (k', v') :: rest =>
      if same k' k then (k', v) :: rest else (k', v') :: map_set k v rest
  end.

(** Mutation of the object held under [k], through the reference that
    [Map.get] returns. *)
Fixpoint map_update (k : K) (f : V -> V) (m : list (K * V)) : list (K * V) :=
  match m with
  | [] => []
  | (k', v) :: rest =>
      if same k' k then (k', f v) :: rest else (k', v) :: map_update k f rest
  end.
End JSMap.

(** ** Array methods *)

(** [Array.prototype.sort(cmp)]: stable since ECMAScript 2019; [a] is placed
    after [b] when [cmp(a, b) > 0], and a comparator result of NaN counts as
    0. Elements are inserted from the right, each one before the first
    element it need not follow, so equal elements keep their order. For a
    comparator that is not a consistent order (here: a key that is NaN) the
    standard leaves the result to the engine, and the order that this
    insertion gives need not be the engine's: what is proved about the order
    of a sorted list is proved for keys that are numbers, where every stable
    sort gives the same list; the rest uses only that sorting permutes. *)
Fixpoint sort_insert {A : Type} (cmp : A -> A -> number) (x : A) (l : list A) : list A :=
  match l with
  | [] => [x]
  | y :: rest =>
      if (0 <? cmp x y)%float then y :: sort_insert cmp x rest else x :: y :: rest
  end.

Definition sort {A : Type} (cmp : A -> A -> number) (l : list A) : list A :=
  fold_right (sort_insert cmp) [] l.

(** [l.slice(0, end)] for an integer [end]: a negative [end] counts from the
    end of the array. *)
Definition slice0 {A : Type} (end_ : Z) (l : list A) : list A :=
  let len := Z.of_nat (length l) in
  let final := if (end_ <? 0)%Z then Z.max (len + end_) 0 else Z.min end_ len in
  firstn (Z.to_nat final) l.

(** [[a, b, c].join(sep)] on strings. *)
Fixpoint join (sep : string) (l : list string) : string :=
  match l with
  | [] => ""
  | [s] => s
  | s :: rest => s ++ sep ++ join sep rest
  end.

(** ** Promises, as far as their settlement *)

Inductive promise (A : Type) : Type :=
| Resolved (a : A)
| RejectedWith (reason : jsvalue)
| Unsettled.
Arguments Resolved {A} a.
Arguments RejectedWith {A} reason.
Arguments Unsettled {A}.

(** [p.then(f)] and [p.catch(g)] for handlers that return an object literal
    (they cannot throw). *)
Definition then_ {A B : Type} (p : promise A) (f : A -> B) : promise B :=
  match p with
  | Resolved a => Resolved (f a)
  | RejectedWith e => RejectedWith e
  | Unsettled => Unsettled
  end.

Definition catch_ {A : Type} (p : promise A) (g : jsvalue -> A) : promise A :=
  match p with
  | RejectedWith e => Resolved (g e)
  | _ => p
  end.

(** What an [async] method gives its caller. *)
Inductive outcome (A : Type) : Type :=
| Returned (a : A)
| Threw (e : jsvalue)
| Hangs.
Arguments Returned {A} a.
Arguments Threw {A} e.
Arguments Hangs {A}.

(** ** MultiAgentCoordinator *)

Definition Subtask := jsvalue.

(** An agent instance, as far as the coordinator uses it: the expression
    [agent.instance.execute(subtask).then(..)] either throws at once
    ([execute] throws, or what it returns has no [then]) or has a promise to
    chain on. *)
Definition Agent := Subtask -> completion (promise jsvalue).

Record AgentData := {
  instance : Agent;
  status : string;
  tasksCompleted : number;
  agent_successRate : number
}.

(** The object that the [then] or the [catch] handler of [distributeTask]
    builds; a field that the literal leaves out reads [undefined]. *)
Record TaskResult := {
  agentId : string;
  success : bool;
  result : jsvalue;
  error : jsvalue
}.

(** An element of the array that [Promise.allSettled] resolves with. *)
Inductive Settled : Type :=
| Fulfilled (v : TaskResult)
| Rejected (e : jsvalue).

Definition settled_status (r : Settled) : string :=
  match r with
  | Fulfilled _ => "fulfilled"
  | Rejected _ => "rejected"
  end.

(** [r.reason] *)
Definition reason (r : Settled) : jsvalue :=
  match r with
  | Fulfilled _ => VUndefined
  | Rejected e => e
  end.

Record TaskRecord := {
  taskId : string;
  results : list Settled;
  task_timestamp : number
}.

Record MultiAgentCoordinator := {
  agents : list (string * AgentData);
  tasks : list (string * TaskRecord)
}.

Definition new_MultiAgentCoordinator : MultiAgentCoordinator :=
  {| agents := []; tasks := [] |}.

Definition registerAgent (id : string) (agent : Agent) (c : MultiAgentCoordinator)
  : MultiAgentCoordinator :=
  {| agents := map_set String.eqb id
                 {| instance := agent; status := "ready";
                    tasksCompleted := 0%float; agent_successRate := 1%float |}
                 (agents c);
     tasks := tasks c |}.

(** The ready agents, best success rate first. *)
Definition readyAgents (c : MultiAgentCoordinator) : list (string * AgentData) :=
  sort (fun a b => (agent_successRate (snd b) - agent_successRate (snd a))%float)
       (filter (fun entry => status (snd entry) =? "ready") (agents c)).

(** One turn of the loop of [allocateSubtasks], on the pair of [allocations]
    and [agentIndex]; the [break] on an empty [readyAgents] leaves both as
    they are for the rest of the loop. *)
Definition allocate_step (ready : list (string * AgentData))
    (acc : list (string * Subtask) * nat) (subtask : Subtask)
  : list (string * Subtask) * nat :=
  let (allocations, agentIndex) := acc in
  if (length ready =? 0)%nat then acc
  else
    match nth_error ready (agentIndex mod length ready) with
    | Some (id, _) => (map_set String.eqb id subtask allocations, S agentIndex)
    | None => acc
    end.

(** The result is a [Map] from agent id to subtask. *)
Definition allocateSubtasks (c : MultiAgentCoordinator) (subtasks : list Subtask)
  : list (string * Subtask) :=
  fst (fold_left (allocate_step (readyAgents c)) subtasks ([], 0)).

Record TaskSummary := {
  totalTasks : nat;
  successful : nat;
  failed : nat;
  summary_successRate : number;
  data : list jsvalue;
  errors : list jsvalue
}.

Definition is_successful (r : Settled) : bool :=
  match r with
  | Fulfilled v => success v
  | Rejected _ => false
  end.

Definition is_failed (r : Settled) : bool :=
  match r with
  | Rejected _ => true
  | Fulfilled v => negb (success v)
  end.

(** [r.value.result] and [r.value.error || r.reason]: on a rejected element
    [r.value] is [undefined] and reading a property of it throws. *)
Definition result_entry (r : Settled) : completion jsvalue :=
  match r with
  | Fulfilled v => Normal (result v)
  | Rejected _ => Throw TypeError
  end.

Definition error_entry (r : Settled) : completion jsvalue :=
  match r with
  | Fulfilled v => Normal (or_else (error v) (reason r))
  | Rejected _ => Throw TypeError
  end.

(** [l.map(f)] for a callback that may throw. *)
Fixpoint map_completion {A B : Type} (f : A -> completion B) (l : list A)
  : completion (list B) :=
  match l with
  | [] => Normal []
  | a :: rest =>
      match f a with
      | Throw e => Throw e
      | Normal b =>
          match map_completion f rest with
          | Throw e => Throw e
          | Normal bs => Normal (b :: bs)
          end
      end
  end.

Definition aggregateResults (rs : list Settled) : completion TaskSummary :=
  let ok := filter is_successful rs in
  let ko := filter is_failed rs in
  match map_completion result_entry ok with
  | Throw e => Throw e
  | Normal d =>
      match map_completion error_entry ko with
      | Throw e => Throw e
      | Normal errs =>
          Normal {| totalTasks := length rs;
                    successful := length ok;
                    failed := length ko;
                    summary_successRate :=
                      (number_of_nat (length ok) / number_of_nat (length rs))%float;
                    data := d;
                    errors := errs |}
      end
  end.

(** The promise pushed for one assignment. *)
Definition execution (id : string) (p : promise jsvalue) : promise TaskResult :=
  catch_
    (then_ p (fun r => {| agentId := id; success := true;
                          result := r; error := VUndefined |}))
    (fun e => {| agentId := id; success := false;
                 result := VUndefined; error := e |}).

(** The loop of [distributeTask] over the entries of the allocation. *)
Fixpoint dispatch (ags : list (string * AgentData))
    (assignments : list (string * Subtask)) : completion (list (promise TaskResult)) :=
  match assignments with
  | [] => Normal []
  | (id, subtask) :: rest =>
      match map_get String.eqb id ags with
      | None => dispatch ags rest
      | Some agent =>
          match instance agent subtask with
          | Throw e => Throw e
          | Normal p =>
              match dispatch ags rest with
              | Throw e => Throw e
              | Normal ps => Normal (execution id p :: ps)
              end
          end
      end
  end.

(** [Promise.allSettled]: resolves once every promise has settled. *)
Fixpoint allSettled (ps : list (promise TaskResult)) : option (list Settled) :=
  match ps with
  | [] => Some []
  | p :: rest =>
      match p, allSettled rest with
      | Resolved v, Some rs => Some (Fulfilled v :: rs)
      | RejectedWith e, Some rs => Some (Rejected e :: rs)
      | _, _ => None
      end
  end.

(** The array [results] of [distributeTask]. *)
Definition settledResults (c : MultiAgentCoordinator) (subtasks : list Subtask)
  : outcome (list Settled) :=
  match dispatch (agents c) (allocateSubtasks c subtasks) with
  | Throw e => Threw e
  | Normal promises =>
      match allSettled promises with
      | None => Hangs
      | Some rs => Returned rs
      end
  end.

(** [taskKey] is the random key drawn for the run, [now] the clock. *)
Definition distributeTask (taskKey : string) (now : number) (task : string)
    (subtasks : list Subtask) (c : MultiAgentCoordinator)
  : MultiAgentCoordinator * outcome TaskSummary :=
  match settledResults c subtasks with
  | Threw e => (c, Threw e)
  | Hangs => (c, Hangs)
  | Returned rs =>
      let c' := {| agents := agents c;
                   tasks := map_set String.eqb taskKey
                              {| taskId := task; results := rs; task_timestamp := now |}
                              (tasks c) |} in
      match aggregateResults rs with
      | Throw e => (c', Threw e)
      | Normal summary => (c', Returned summary)
      end
  end.

Record AgentStats := {
  stats_id : string;
  stats_status : string;
  stats_tasksCompleted : number;
  stats_successRate : number
}.

Record CoordinatorStatus := {
  agentsCount : nat;
  tasksCount : nat;
  agentStats : list AgentStats;
  averageSuccessRate : number
}.

Definition getStatus (c : MultiAgentCoordinator) : CoordinatorStatus :=
  let stats := map (fun entry =>
                      {| stats_id := fst entry;
                         stats_status := status (snd entry);
                         stats_tasksCompleted := tasksCompleted (snd entry);
                         stats_successRate := agent_successRate (snd entry) |})
                   (agents c) in
  {| agentsCount := length (agents c);
     tasksCount := length (tasks c);
     agentStats := stats;
     averageSuccessRate :=
       if (0 <? length stats)%nat
       then (fold_left (fun sum a => sum + stats_successRate a) stats 0
             / number_of_nat (length stats))%float
       else 0%float |}.

(** ** ReplaySystem *)

(** The configuration after the defaults and the caller's overrides have
    been merged. *)
Record Config := {
  maxReplays : nat;
  learningRate : number;
  batchSize : nat
}.

Definition default_config : Config :=
  {| maxReplays := 1000; learningRate := 0.01%float; batchSize := 32 |}.

(** An action: its [type] and the fields that depend on the type (the other
    properties of the object, in order). *)
Record Action := {
  type : string;
  details : list (string * jsvalue)
}.

Record Session := {
  id : string;
  gameType : string;
  timestamp : string;
  actions : list Action;
  session_successRate : number;
  session_patterns : list string
}.

Record PatternData := {
  count : number;
  successTotal : number
}.

Definition PatternTable := list (string * PatternData).

Record ReplaySystem := {
  config : Config;
  replays : list Session;
  patterns : PatternTable
}.

Definition new_ReplaySystem (cfg : Config) : ReplaySystem :=
  {| config := cfg; replays := []; patterns := [] |}.

(** [actions[i].type]; the loop of [extractPatterns] reads inside the array
    only. *)
Definition action_type (acts : list Action) (i : nat) : string :=
  match nth_error acts i with
  | Some a => type a
  | None => ""
  end.

Definition triple_at (acts : list Action) (i : nat) : string :=
  join "-" [action_type acts i; action_type acts (i + 1); action_type acts (i + 2)].

(** The table part of one turn of the loop: the entry is created when
    missing, then its [count] is incremented. *)
Definition touch (triple : string) (tbl : PatternTable) : PatternTable :=
  let tbl1 :=
    if map_has String.eqb triple tbl then tbl
    else map_set String.eqb triple {| count := 0%float; successTotal := 0%float |} tbl in
  map_update String.eqb triple
    (fun d => {| count := (count d + 1)%float; successTotal := successTotal d |})
    tbl1.

Definition extract_step (acts : list Action) (acc : list string * PatternTable)
    (i : nat) : list string * PatternTable :=
  let (pats, tbl) := acc in
  let triple := triple_at acts i in
  ((pats ++ [triple])%list, touch triple tbl).

(** [for (let i = 0; i < actions.length - 2; i++)]: no turn when the array
    has fewer than three elements. Returns the signatures and the table as
    the loop leaves it. *)
Definition extractPatterns (acts : list Action) (tbl : PatternTable)
  : list string * PatternTable :=
  fold_left (extract_step acts) (seq 0 (length acts - 2)) ([], tbl).

(** [sessionId] is the random id drawn, [now] the clock as an ISO string. *)
Definition recordSession (sessionId now : string) (game : string)
    (acts : list Action) (rate : number) (r : ReplaySystem)
  : string * ReplaySystem :=
  let (pats, tbl) := extractPatterns acts (patterns r) in
  let session := {| id := sessionId; gameType := game; timestamp := now;
                    actions := acts; session_successRate := rate;
                    session_patterns := pats |} in
  let pushed := (replays r ++ [session])%list in
  let kept := if (maxReplays (config r) <? length pushed)%nat then tl pushed else pushed in
  (sessionId, {| config := config r; replays := kept; patterns := tbl |}).

Record LearningStats := {
  successfulReplays : nat;
  patternsLearned : nat;
  totalPatterns : nat
}.

(** [r.successRate >= threshold] *)
Definition qualifies (threshold : number) (s : Session) : bool :=
  (threshold <=? session_successRate s)%float.

Definition learn_pattern (rate : number) (acc : PatternTable * nat) (pattern : string)
  : PatternTable * nat :=
  let (tbl, learned) := acc in
  if map_has String.eqb pattern tbl
  then (map_update String.eqb pattern
          (fun d => {| count := count d; successTotal := (successTotal d + rate)%float |})
          tbl,
        S learned)
  else acc.

Definition learn_replay (acc : PatternTable * nat) (replay : Session)
  : PatternTable * nat :=
  fold_left (learn_pattern (session_successRate replay)) (session_patterns replay) acc.

Definition learnFromSuccessfulReplays (threshold : number) (r : ReplaySystem)
  : LearningStats * ReplaySystem :=
  let good := filter (qualifies threshold) (replays r) in
  let (tbl, learned) := fold_left learn_replay good (patterns r, 0) in
  ({| successfulReplays := length good;
      patternsLearned := learned;
      totalPatterns := length tbl |},
   {| config := config r; replays := replays r; patterns := tbl |}).

Record PatternScore := {
  pattern : string;
  score_successRate : number;
  frequency : number
}.

Definition score (entry : string * PatternData) : PatternScore :=
  let (p, d) := entry in
  {| pattern := p;
     score_successRate :=
       if (0 <? count d)%float then (successTotal d / count d)%float else 0%float;
     frequency := count d |}.

Definition getRecommendedPatterns (currentContext : string) (topK : Z)
    (r : ReplaySystem) : list PatternScore :=
  slice0 topK
    (sort (fun a b => (score_successRate b - score_successRate a)%float)
          (map score (patterns r))).

Record ReplayStats := {
  totalSessions : nat;
  stats_totalPatterns : nat;
  stats_averageSuccessRate : number;
  topPatterns : list PatternScore
}.

Definition getStats (r : ReplaySystem) : ReplayStats :=
  {| totalSessions := length (replays r);
     stats_totalPatterns := length (patterns r);
     stats_averageSuccessRate :=
       if (0 <? length (replays r))%nat
       then (fold_left (fun sum s => sum + session_successRate s) (replays r) 0
             / number_of_nat (length (replays r)))%float
       else 0%float;
     topPatterns := getRecommendedPatterns "" 3 r |}.

(** ** Persistence *)

(** [saveReplays] and [loadReplays] move the two fields [replays] and
    [patterns] as JavaScript values, and [loadReplays] stores what it reads
    without looking at its shape: the two fields are modelled here as the
    values they hold. *)
Record Memory := {
  mem_replays : jsvalue;
  mem_patterns : list (jsvalue * jsvalue)
}.

Definition value_of_action (a : Action) : jsvalue :=
  VObj (("type", VStr (type a)) :: details a).

Definition value_of_session (s : Session) : jsvalue :=
  VObj [("id", VStr (id s));
        ("gameType", VStr (gameType s));
        ("timestamp", VStr (timestamp s));
        ("actions", VArr (map value_of_action (actions s)));
        ("successRate", VNum (session_successRate s));
        ("patterns", VArr (map VStr (session_patterns s)))].

Definition value_of_data (d : PatternData) : jsvalue :=
  VObj [("count", VNum (count d)); ("successTotal", VNum (successTotal d))].

(** The two fields of a replay system, as the values that are in memory. *)
Definition memory_of (r : ReplaySystem) : Memory :=
  {| mem_replays := VArr (map value_of_session (replays r));
     mem_patterns := map (fun e => (VStr (fst e), value_of_data (snd e))) (patterns r) |}.

(** What [JSON.parse] reads back from what [JSON.stringify] writes, for the
    values of [jsvalue]: [NaN] and the infinities become [null], negative
    zero becomes zero, an [undefined] array element becomes [null] and an
    [undefined] property is dropped; a finite number is printed so that it
    reads back as itself. (Values outside [jsvalue] are not covered:
    [JSON.stringify] rewrites a date to a string, drops a function or a
    symbol, writes a [Map], a [Set] or an instance of a class as the object
    of its own enumerable properties, and throws on a BigInt or a cycle.) *)
Fixpoint json_image (v : jsvalue) : jsvalue :=
  match v with
  | VUndefined => VNull
  | VNum x =>
      if PrimFloat.is_finite x
      then VNum (if PrimFloat.is_zero x then 0%float else x)
      else VNull
  | VArr items => VArr (map json_image items)
  | VObj props =>
      VObj ((fix image_props (ps : list (string * jsvalue)) :=
               match ps with
               | [] => []
               | (k, VUndefined) :: rest => image_props rest
               | (k, x) :: rest => (k, json_image x) :: image_props rest
               end) props)
  | _ => v
  end.

(** The object that [saveReplays] hands to [JSON.stringify]. *)
Definition snapshot (now : string) (m : Memory) : jsvalue :=
  VObj [("timestamp", VStr now);
        ("replays", mem_replays m);
        ("patterns", VArr (map (fun e => VArr [fst e; snd e]) (mem_patterns m)))].

(** The content of a file: text that [JSON.parse] rejects, or the text of a
    value. *)
Inductive file_content : Type :=
| NotJson
| Json (v : jsvalue).

(** [saveReplays], for a state made of values of [jsvalue] (on these
    [JSON.stringify] does not throw): the file written when [writable],
    nothing otherwise; the caller is told neither (the error is caught and
    logged). *)
Definition saveReplays (writable : bool) (now : string) (m : Memory)
  : option file_content :=
  if writable then Some (Json (json_image (snapshot now m))) else None.

(** An entry handed to [new Map]: an object, read at [0] and [1]. *)
Definition entry_of (item : jsvalue) : option (jsvalue * jsvalue) :=
  match item with
  | VArr l => Some (nth 0 l VUndefined, nth 1 l VUndefined)
  | VObj props => Some (lookup_prop "0" props, lookup_prop "1" props)
  | _ => None
  end.

(** The key that [Map.prototype.set] stores: [-0] is stored as [+0]. *)
Definition map_key (k : jsvalue) : jsvalue :=
  match k with
  | VNum x => if PrimFloat.is_zero x then VNum 0%float else k
  | _ => k
  end.

Fixpoint map_of_entries (items : list jsvalue) (m : list (jsvalue * jsvalue))
  : completion (list (jsvalue * jsvalue)) :=
  match items with
  | [] => Normal m
  | item :: rest =>
      match entry_of item with
      | None => Throw TypeError
      | Some (k, v) => map_of_entries rest (map_set same_value_zero (map_key k) v m)
      end
  end.

(** [new Map(iterable)]: a TypeError when the argument is not iterable or
    yields something that is not an object (the characters of a string). *)
Definition new_Map (iterable : jsvalue) : completion (list (jsvalue * jsvalue)) :=
  match iterable with
  | VUndefined | VNull => Normal []
  | VArr items => map_of_entries items []
  | VStr s => if s =? "" then Normal [] else Throw TypeError
  | _ => Throw TypeError
  end.

(** [loadReplays], on what reading the file gives: [None] when the read
    fails. The body of the [try] runs in the order of the source: the
    assignment to [this.replays] comes before [new Map] is evaluated. *)
Definition loadReplays (read : option file_content) (m : Memory) : bool * Memory :=
  match read with
  | None => (false, m)
  | Some NotJson => (false, m)
  | Some (Json parsed) =>
      match member parsed "replays" with
      | Throw _ => (false, m)
      | Normal rs =>
          let m1 := {| mem_replays := or_else rs (VArr []);
                       mem_patterns := mem_patterns m |} in
          match member parsed "patterns" with
          | Throw _ => (false, m1)
          | Normal ps =>
              match new_Map (or_else ps (VArr [])) with
              | Throw _ => (false, m1)
              | Normal table =>
                  (true, {| mem_replays := mem_replays m1; mem_patterns := table |})
              end
          end
      end
  end.

(** ** Notions used to state the properties *)

(** The entry that [extractPatterns] creates for a new signature. *)
Definition new_data : PatternData := {| count := 0%float; successTotal := 0%float |}.

(** [count] incremented [n] times. *)
Definition bump_n (n : nat) (d : PatternData) : PatternData :=
  {| count := Nat.iter n (fun c => (c + 1)%float) (count d);
     successTotal := successTotal d |}.

Definition entry_or_new (o : option PatternData) : PatternData :=
  match o with
  | Some d => d
  | None => new_data
  end.

(** The arguments of one call of [recordSession], with the id and the clock
    reading that the call draws. *)
Record Recording := {
  rec_id : string;
  rec_now : string;
  rec_game : string;
  rec_actions : list Action;
  rec_rate : number
}.

Definition record (r : ReplaySystem) (x : Recording) : ReplaySystem :=
  snd (recordSession (rec_id x) (rec_now x) (rec_game x) (rec_actions x) (rec_rate x) r).

Definition record_all (r : ReplaySystem) (xs : list Recording) : ReplaySystem :=
  fold_left record xs r.

(** The session that a call builds. *)
Definition session_of (x : Recording) : Session :=
  {| id := rec_id x; gameType := rec_game x; timestamp := rec_now x;
     actions := rec_actions x; session_successRate := rec_rate x;
     session_patterns := fst (extractPatterns (rec_actions x) []) |}.

(** The success rates that learning adds to the entry of signature [k]: one
    per occurrence of [k] in the pattern lists of the sessions [good], in
    the order of the two loops. *)
Definition occurrence_rates (k : string) (good : list Session) : list number :=
  flat_map (fun s => map (fun _ => session_successRate s)
                         (filter (String.eqb k) (session_patterns s)))
           good.

(** [successTotal] after the rates [rs] have been added one by one. *)
Definition credit (rs : list number) (d : PatternData) : PatternData :=
  {| count := count d;
     successTotal := fold_left (fun total rate => (total + rate)%float) rs (successTotal d) |}.

(** An entry whose [successTotal] is a number and whose [count] is finite. *)
Definition entry_finite (d : PatternData) : bool :=
  negb (PrimFloat.is_nan (successTotal d)) && PrimFloat.is_finite (count d).

Definition table_finite (tbl : PatternTable) : bool :=
  forallb (fun e => entry_finite (snd e)) tbl.

(** An entry as the data model has it: [count] an integer that is not
    negative (of which only that it is a finite number that is not negative
    is used), [successTotal] a number that is not negative. *)
Definition entry_of_model (d : PatternData) : bool :=
  (0 <=? successTotal d)%float && (0 <=? count d)%float && PrimFloat.is_finite (count d).

(** [a] may come before [b] in a list in descending order of [key]. *)
Definition descending {A : Type} (key : A -> number) (a b : A) : Prop :=
  (key b <=? key a)%float = true.

(** [b] is not ranked above [a]. *)
Definition ranked (a b : PatternScore) : Prop := descending score_successRate a b.

(** A number that [JSON.stringify] prints and [JSON.parse] reads back as
    itself: finite, and not the negative zero. *)
Definition json_number (x : number) : bool :=
  PrimFloat.is_finite x && (negb (PrimFloat.is_zero x) || PrimFloat.Leibniz.eqb x 0%float).

(** A value of JSON whose numbers are such numbers: [null], a boolean, a
    string, such a number, or an array or a plain object of such values. *)
Fixpoint json_value (v : jsvalue) : bool :=
  match v with
  | VUndefined => false
  | VNum x => json_number x
  | VArr items => forallb json_value items
  | VObj props =>
      (fix all_props (ps : list (string * jsvalue)) : bool :=
         match ps with
         | [] => true
         | (_, x) :: rest => json_value x && all_props rest
         end) props
  | _ => true
  end.

Definition json_action (a : Action) : bool :=
  forallb (fun p => json_value (snd p)) (details a).

Definition json_session (s : Session) : bool :=
  json_number (session_successRate s) && forallb json_action (actions s).

Definition json_data (d : PatternData) : bool :=
  json_number (count d) && json_number (successTotal d).

(** A replay system whose sessions and pattern table are made of such values. *)
Definition json_store (r : ReplaySystem) : bool :=
  forallb json_session (replays r) && forallb (fun e => json_data (snd e)) (patterns r).

(** A promise that a rejection handler has been chained on: it is not
    rejected. *)
Definition handled {A : Type} (p : promise A) : Prop :=
  match p with
  | RejectedWith _ => False
  | _ => True
  end.

(** What becomes of the promise that [execute] returned for the assignment
    of agent [a], once it has settled: a value makes a fulfilled result that
    reports success with the value, a fault (a rejection) makes a fulfilled
    result that reports failure with the fault as its error. *)
Definition converted (a : string) (p : promise jsvalue) : option Settled :=
  match p with
  | Resolved v =>
      Some (Fulfilled {| agentId := a; success := true;
                         result := v; error := VUndefined |})
  | RejectedWith e =>
      Some (Fulfilled {| agentId := a; success := false;
                         result := VUndefined; error := e |})
  | Unsettled => None
  end.

(** Whether [aggregateResults], computing the error entry
    [r.value.error || r.reason] of [r], evaluates the operand [r.reason]. *)
Definition reads_reason (r : Settled) : bool :=
  match r with
  | Fulfilled v => negb (truthy (error v))
  | Rejected _ => false
  end.

(** ** Auxiliary notions for the proofs *)

(** A specification float that is finite and non-zero or infinite, of sign [s]. *)
Definition SFsigned (s : bool) (x : spec_float) : Prop :=
  (exists m e, x = S754_finite s m e) \/ x = S754_infinity s.

(** The signed mantissa of a finite float, brought to the exponent [ez]. *)
Definition aligned (s : bool) (m : positive) (e ez : Z) : Z :=
  cond_Zopp s (Zpos (fst (shl_align m e ez))).

(** Comparison of (exponent, mantissa) pairs, exponent first. *)
Definition lexcmp (e1 : Z) (m1 : positive) (e2 : Z) (m2 : positive) : comparison :=
  match (e1 ?= e2)%Z with
  | Lt => Lt
  | Gt => Gt
  | Eq => Pos.compare_cont Eq m1 m2
  end.

(** ** Concrete systems used in the scenarios *)

(** An agent whose [execute] resolves with [null]. *)
Definition idle_agent : Agent := fun _ => Normal (Resolved VNull).

Definition ready_agent (rate : number) : AgentData :=
  {| instance := idle_agent; status := "ready";
     tasksCompleted := 0%float; agent_successRate := rate |}.

(** Agents A (success rate 0.9) and B (0.5), registered in that order. *)
Definition coordinator_AB : MultiAgentCoordinator :=
  {| agents := [("A", ready_agent 0.9%float); ("B", ready_agent 0.5%float)];
     tasks := [] |}.

(** Agents A and B as [registerAgent] leaves them (success rate 1 each). *)
Definition coordinator_registered : MultiAgentCoordinator :=
  registerAgent "B" idle_agent (registerAgent "A" idle_agent new_MultiAgentCoordinator).

Definition action (t : string) : Action := {| type := t; details := [] |}.

(** A system that has recorded one session of four actions (two signatures)
    with success rate 0.9 and learned from it. *)
Definition store_two : ReplaySystem :=
  snd (learnFromSuccessfulReplays 0.7%float
         (record (new_ReplaySystem default_config)
                 {| rec_id := "0a"; rec_now := "t0"; rec_game := "Roblox";
                    rec_actions := map action ["m"; "c"; "k"; "m"];
                    rec_rate := 0.9%float |})).

(** A system whose only entry has been credited [Infinity] and [-Infinity]:
    its [successTotal] is NaN. *)
Definition store_nan : ReplaySystem :=
  snd (learnFromSuccessfulReplays neg_infinity
         (record_all (new_ReplaySystem default_config)
            [{| rec_id := "0a"; rec_now := "t0"; rec_game := "Roblox";
                rec_actions := map action ["m"; "c"; "k"]; rec_rate := infinity |};
             {| rec_id := "0b"; rec_now := "t1"; rec_game := "Roblox";
                rec_actions := map action ["m"; "c"; "k"]; rec_rate := neg_infinity |}])).


(** A snapshot whose [patterns] is an object, not a list of entries. *)
Definition snapshot_bad_patterns : file_content :=
  Json (VObj [("timestamp", VStr "t9"); ("replays", VArr []); ("patterns", VObj [])]).

(** A system that has recorded one session whose success rate is NaN (the
    rate that [aggregateResults] gives for no result). *)
Definition store_nan_rate : ReplaySystem :=
  record (new_ReplaySystem default_config)
         {| rec_id := "0a"; rec_now := "t0"; rec_game := "Roblox";
            rec_actions := []; rec_rate := nan |}.

(** A system that has recorded one session, of success rate 0.9, with an
    action that carries a field whose value is NaN. *)
Definition store_nan_field : ReplaySystem :=
  record (new_ReplaySystem default_config)
         {| rec_id := "0a"; rec_now := "t0"; rec_game := "Roblox";
            rec_actions := [{| type := "mouse_move"; details := [("x", VNum nan)] |}];
            rec_rate := 0.9%float |}.

Definition empty_memory : Memory := {| mem_replays := VArr []; mem_patterns := [] |}.

(** An agent whose [execute] rejects with [null], alone in a coordinator. *)
Definition rejecting_agent : Agent := fun _ => Normal (RejectedWith VNull).

Definition coordinator_rejecting : MultiAgentCoordinator :=
  registerAgent "A" rejecting_agent new_MultiAgentCoordinator.

(** An agent whose [execute] rejects with an error, registered after an
    agent whose [execute] resolves. *)
Definition failing_agent : Agent := fun _ => Normal (RejectedWith (VStr "boom")).

Definition coordinator_mixed : MultiAgentCoordinator :=
  registerAgent "B" failing_agent
    (registerAgent "A" idle_agent new_MultiAgentCoordinator).

(** Calls of [recordSession] with three actions each. *)
Definition recording (n : string) : Recording :=
  {| rec_id := n; rec_now := "t0"; rec_game := "Roblox";
     rec_actions := map action ["m"; "c"; "k"]; rec_rate := 0.9%float |}.

(** A system of capacity 2 that has loaded the snapshot of a system of
    capacity 1000 holding three sessions: [loadReplays] installs the three. *)
Definition small_config : Config :=
  {| maxReplays := 2; learningRate := 0.01%float; batchSize := 32 |}.

Definition store_saved : ReplaySystem :=
  record_all (new_ReplaySystem default_config)
             [recording "0a"; recording "0b"; recording "0c"].

Definition store_loaded : ReplaySystem :=
  {| config := small_config;
     replays := replays store_saved;
     patterns := patterns store_saved |}.

(** The learning scenario of the specification: a session with signatures
    [m-c-k] (success rate 0.9) and one with [m-c-k], [c-k-m] (0.4). *)
Definition store_scenario : ReplaySystem :=
  record_all (new_ReplaySystem default_config)
    [{| rec_id := "0a"; rec_now := "t0"; rec_game := "Roblox";
        rec_actions := map action ["m"; "c"; "k"]; rec_rate := 0.9%float |};
     {| rec_id := "0b"; rec_now := "t1"; rec_game := "Roblox";
        rec_actions := map action ["m"; "c"; "k"; "m"]; rec_rate := 0.4%float |}].

Definition three_subtasks : list Subtask := [VStr "s0"; VStr "s1"; VStr "s2"].

(** ** Further operations and notions *)

(** The coordinators that the operations build from a new one. *)
Inductive built : MultiAgentCoordinator -> Prop :=
| built_new : built new_MultiAgentCoordinator
| built_register (a : string) (agent : Agent) (c : MultiAgentCoordinator) :
    built c -> built (registerAgent a agent c)
| built_distribute (taskKey : string) (now : number) (task : string)
    (subtasks : list Subtask) (c : MultiAgentCoordinator) :
    built c -> built (fst (distributeTask taskKey now task subtasks c)).

(** The record that [registerAgent] stores. *)
Definition registered (agent : Agent) : AgentData :=
  {| instance := agent; status := "ready";
     tasksCompleted := 0%float; agent_successRate := 1%float |}.

(** [r.value.agentId], where there is a value. *)
Definition settled_agent (r : Settled) : option string :=
  match r with
  | Fulfilled v => Some (agentId v)
  | Rejected _ => None
  end.

(** The replay systems that [recordSession] and
    [learnFromSuccessfulReplays] build from a new one. *)
Inductive grown : ReplaySystem -> Prop :=
| grown_new (cfg : Config) : grown (new_ReplaySystem cfg)
| grown_record (x : Recording) (r : ReplaySystem) : grown r -> grown (record r x)
| grown_learn (threshold : number) (r : ReplaySystem) :
    grown r -> grown (snd (learnFromSuccessfulReplays threshold r)).

(** Every signature of every stored session has its entry in the table. *)
Definition covered (r : ReplaySystem) : Prop :=
  Forall (fun s => Forall (fun p => map_has String.eqb p (patterns r) = true)
                          (session_patterns s))
         (replays r).

(** No two keys of a [Map] are the same value. *)
Definition distinct_keys (m : list (jsvalue * jsvalue)) : Prop :=
  ForallOrdPairs (fun a b => same_value_zero a b = false) (map fst m).

(** A coordinator whose only agent is not ready. *)
Definition coordinator_busy : MultiAgentCoordinator :=
  {| agents := [("A", {| instance := idle_agent; status := "busy";
                         tasksCompleted := 0%float; agent_successRate := 1%float |})];
     tasks := [] |}.

(** The results of a success of agent A and a failure of agent B. *)
Definition two_results : list Settled :=
  [Fulfilled {| agentId := "A"; success := true; result := VNull; error := VUndefined |};
   Fulfilled {| agentId := "B"; success := false; result := VUndefined; error := VStr "e" |}].

(** A snapshot whose [patterns] lists the key [a] twice. *)
Definition snapshot_duplicate : file_content :=
  Json (VObj [("replays", VArr []);
              ("patterns", VArr [VArr [VStr "a"; VNum 1%float];
                                 VArr [VStr "b"; VNum 2%float];
                                 VArr [VStr "a"; VNum 3%float]])]).

(** * Properties *)

(** ** Binary64 arithmetic

    The comparator [(a, b) => b.successRate - a.successRate] orders by the
    sign of a rounded difference, and the score of a pattern is a rounded
    quotient. The facts needed on both are derived from the specification of
    the primitive operations ([FloatAxioms]). *)

Local Open Scope Z_scope.

Lemma digits2_pos_size (m : positive) : digits2_pos m = Pos.size m.
Proof. induction m as [m IH|m IH|]; simpl; now rewrite ?IH. Qed.

Lemma digits2_pos_log2 (m : positive) :
  Zpos (digits2_pos m) = Z.log2 (Zpos m) + 1.
Proof.
  rewrite digits2_pos_size.
  destruct m as [m|m|]; simpl; try rewrite Pos2Z.inj_succ; lia.
Qed.

Lemma digits2_pos_bounds (m : positive) :
  2 ^ (Zpos (digits2_pos m) - 1) <= Zpos m < 2 ^ Zpos (digits2_pos m).
Proof.
  rewrite digits2_pos_log2.
  replace (Z.log2 (Zpos m) + 1 - 1) with (Z.log2 (Zpos m)) by lia.
  apply (Z.log2_spec (Zpos m)). lia.
Qed.

Lemma iter_xO_pow (d m : positive) :
  Zpos (Pos.iter xO m d) = Zpos m * 2 ^ Zpos d.
Proof.
  induction d as [|d IH] using Pos.peano_ind.
  - simpl. lia.
  - rewrite Pos.iter_succ, Pos2Z.inj_xO, IH, Pos2Z.inj_succ, Z.pow_succ_r by lia. lia.
Qed.

Lemma pow2_xO (p : positive) : 2 ^ Zpos p * 2 ^ Zpos p = 2 ^ Zpos p~0.
Proof. rewrite <- Z.pow_add_r by lia. f_equal. lia. Qed.

Lemma pow2_xI (p : positive) : 2 * (2 ^ Zpos p * 2 ^ Zpos p) = 2 ^ Zpos p~1.
Proof.
  rewrite pow2_xO.
  change (Zpos p~1) with (Z.succ (Zpos p~0)).
  rewrite Z.pow_succ_r by lia. reflexivity.
Qed.

Lemma shr_1_m (mrs : shr_record) :
  0 <= shr_m mrs -> shr_m (shr_1 mrs) = shr_m mrs / 2.
Proof.
  destruct mrs as [m r s]; simpl; intros Hm.
  rewrite <- Z.div2_div.
  destruct m as [|[p|p|]|p]; try reflexivity; lia.
Qed.

(** Shifting right [p] times divides the mantissa by [2 ^ p]. *)
Lemma iter_shr_1_m (p : positive) : forall mrs,
  0 <= shr_m mrs ->
  shr_m (iter_pos shr_1 p mrs) = shr_m mrs / 2 ^ Zpos p.
Proof.
  induction p as [p IH|p IH|]; intros mrs Hm; simpl iter_pos.
  - assert (H1 : 0 <= shr_m (shr_1 mrs)).
    { rewrite shr_1_m by assumption. apply Z.div_pos; lia. }
    assert (H2 : 0 <= shr_m (iter_pos shr_1 p (shr_1 mrs))).
    { rewrite IH by assumption. apply Z.div_pos; lia. }
    rewrite IH, IH, shr_1_m by assumption.
    rewrite !Z.div_div by lia.
    f_equal. apply pow2_xI.
  - assert (H2 : 0 <= shr_m (iter_pos shr_1 p mrs)).
    { rewrite IH by assumption. apply Z.div_pos; lia. }
    rewrite IH, IH by assumption.
    rewrite Z.div_div by lia.
    f_equal. apply pow2_xO.
  - rewrite shr_1_m by assumption. reflexivity.
Qed.

Lemma shr_record_of_loc_m (m : Z) (l : location) :
  shr_m (shr_record_of_loc m l) = m.
Proof. destruct l as [|[]]; reflexivity. Qed.

(** Shifting to the canonical exponent keeps a non-negative mantissa
    non-negative, *)
Lemma shr_fexp_nonneg (m e : Z) (l : location) :
  0 <= m -> 0 <= shr_m (fst (shr_fexp prec emax m e l)).
Proof.
  intros Hm. unfold shr_fexp, shr.
  destruct (fexp prec emax (Zdigits2 m + e) - e) as [|p|p]; cbn [fst snd];
    rewrite ?iter_shr_1_m; rewrite ?shr_record_of_loc_m; try lia.
  apply Z.div_pos; lia.
Qed.

(** and, from the least exponent up, a positive mantissa positive: fewer bits
    are dropped than the mantissa has. *)
Lemma shr_fexp_pos (m e : Z) (l : location) :
  0 < m -> emin <= e ->
  0 < shr_m (fst (shr_fexp prec emax m e l)) /\
  emin <= snd (shr_fexp prec emax m e l).
Proof.
  intros Hm He. unfold shr_fexp, shr.
  destruct m as [|m|m]; try lia.
  pose proof (digits2_pos_bounds m) as [Hlo _].
  unfold Zdigits2.
  remember (fexp prec emax (Zpos (digits2_pos m) + e) - e) as n eqn:Hn.
  unfold fexp in Hn. unfold SpecFloat.emin in *.
  change prec with 53 in *. change emax with 1024 in *.
  destruct n as [|p|p]; cbn [fst snd]; rewrite ?shr_record_of_loc_m.
  - split; lia.
  - rewrite iter_shr_1_m by (rewrite shr_record_of_loc_m; lia).
    rewrite shr_record_of_loc_m. split; [|lia].
    apply Z.div_str_pos. split; [lia|].
    apply Z.le_trans with (2 ^ (Zpos (digits2_pos m) - 1)); [|assumption].
    apply Z.pow_le_mono_r; lia.
  - split; lia.
Qed.

Lemma round_nearest_even_ge (m : Z) (l : location) :
  m <= round_nearest_even m l.
Proof.
  destruct l as [|[]]; simpl; try lia. destruct (Z.even m); lia.
Qed.

(** Rounding a positive integer never gives zero: the result has the sign
    asked for. *)
Lemma binary_round_aux_pos (s : bool) (m e : Z) (l : location) :
  0 < m -> emin <= e -> SFsigned s (binary_round_aux prec emax s m e l).
Proof.
  intros Hm He. unfold binary_round_aux.
  destruct (shr_fexp_pos m e l Hm He) as [H1 H2].
  destruct (shr_fexp prec emax m e l) as [mrs' e']. simpl in H1, H2.
  pose proof (round_nearest_even_ge (shr_m mrs') (loc_of_shr_record mrs')) as Hr.
  assert (H3 : 0 < round_nearest_even (shr_m mrs') (loc_of_shr_record mrs')) by lia.
  destruct (shr_fexp_pos _ e' loc_Exact H3 H2) as [H4 _].
  destruct (shr_fexp prec emax _ e' loc_Exact) as [mrs'' e'']. simpl in H4.
  destruct (shr_m mrs'') as [|q|q]; try lia.
  destruct (e'' <=? emax - prec); [left; eauto | right; reflexivity].
Qed.

Lemma binary_round_aux_nonneg (s : bool) (m e : Z) (l : location) :
  0 <= m -> binary_round_aux prec emax s m e l <> S754_nan.
Proof.
  intros Hm. unfold binary_round_aux.
  pose proof (shr_fexp_nonneg m e l Hm) as H1.
  destruct (shr_fexp prec emax m e l) as [mrs' e']. simpl in H1.
  pose proof (round_nearest_even_ge (shr_m mrs') (loc_of_shr_record mrs')) as Hr.
  assert (H3 : 0 <= round_nearest_even (shr_m mrs') (loc_of_shr_record mrs')) by lia.
  pose proof (shr_fexp_nonneg _ e' loc_Exact H3) as H4.
  destruct (shr_fexp prec emax _ e' loc_Exact) as [mrs'' e'']. simpl in H4.
  destruct (shr_m mrs'') as [|q|q]; try lia; try discriminate.
  destruct (e'' <=? emax - prec); discriminate.
Qed.

Lemma binary_round_signed (s : bool) (m : positive) (e : Z) :
  emin <= e -> SFsigned s (binary_round prec emax s m e).
Proof.
  intros He. unfold binary_round.
  destruct (shl_align m e (fexp prec emax (Zpos (digits2_pos m) + e))) as [mz ez] eqn:Hs.
  apply binary_round_aux_pos; [lia|].
  unfold shl_align in Hs.
  destruct (fexp prec emax (Zpos (digits2_pos m) + e) - e) eqn:Hd;
    inversion Hs; subst; try assumption.
  unfold fexp. apply Z.le_max_r.
Qed.


(** Exact integer value of a mantissa aligned to a lower exponent. *)
Lemma shl_align_value (m : positive) (e ez : Z) :
  ez <= e -> Zpos (fst (shl_align m e ez)) = Zpos m * 2 ^ (e - ez).
Proof.
  intros He. unfold shl_align.
  destruct (ez - e) as [|d|d] eqn:Hd; cbn [fst]; try lia.
  - replace (e - ez) with 0 by lia. lia.
  - rewrite iter_xO_pow. f_equal. f_equal. lia.
Qed.

Lemma bounded_inv (m : positive) (e : Z) :
  bounded prec emax m e = true ->
  emin <= e /\ Zpos (digits2_pos m) <= 53 /\ (emin < e -> Zpos (digits2_pos m) = 53).
Proof.
  unfold bounded, canonical_mantissa, fexp, SpecFloat.emin.
  change prec with 53. change emax with 1024.
  intros H. apply andb_prop in H as [H _]. apply Z.eqb_eq in H. lia.
Qed.

(** On canonical mantissas the lexicographic comparison of (exponent, mantissa)
    is the comparison of the represented magnitudes. *)
Lemma magnitude_compare (m1 m2 : positive) (e1 e2 : Z) :
  bounded prec emax m1 e1 = true -> bounded prec emax m2 e2 = true ->
  match e1 ?= e2 with
  | Lt => Lt
  | Gt => Gt
  | Eq => Pos.compare_cont Eq m1 m2
  end = (Zpos m1 * 2 ^ (e1 - Z.min e1 e2) ?= Zpos m2 * 2 ^ (e2 - Z.min e1 e2)).
Proof.
  intros B1 B2.
  apply bounded_inv in B1 as (L1 & D1 & N1), B2 as (L2 & D2 & N2).
  pose proof (digits2_pos_bounds m1) as [Lo1 Hi1].
  pose proof (digits2_pos_bounds m2) as [Lo2 Hi2].
  assert (P53 : forall d, d <= 53 -> 2 ^ d <= 2 ^ 53)
    by (intros; apply Z.pow_le_mono_r; lia).
  assert (Step : forall k, 0 < k -> 2 <= 2 ^ k).
  { intros k Hk. change 2 with (2 ^ 1) at 1. apply Z.pow_le_mono_r; lia. }
  destruct (Z.compare_spec e1 e2) as [E|E|E].
  - subst e2. rewrite Z.min_id, Z.sub_diag. simpl (2 ^ 0). rewrite !Z.mul_1_r.
    reflexivity.
  - rewrite Z.min_l by lia. rewrite Z.sub_diag. simpl (2 ^ 0). rewrite Z.mul_1_r.
    symmetry. apply Z.compare_lt_iff.
    rewrite N2 in Lo2 by lia. specialize (P53 _ D1). specialize (Step (e2 - e1)).
    change (2 ^ (53 - 1)) with 4503599627370496 in Lo2.
    change (2 ^ 53) with 9007199254740992 in P53. nia.
  - rewrite Z.min_r by lia. rewrite Z.sub_diag. simpl (2 ^ 0). rewrite Z.mul_1_r.
    symmetry. apply Z.compare_gt_iff.
    rewrite N1 in Lo1 by lia. specialize (P53 _ D2). specialize (Step (e1 - e2)).
    change (2 ^ (53 - 1)) with 4503599627370496 in Lo1.
    change (2 ^ 53) with 9007199254740992 in P53. nia.
Qed.

Lemma SFcompare_finite (s1 s2 : bool) (m1 m2 : positive) (e1 e2 : Z) :
  bounded prec emax m1 e1 = true -> bounded prec emax m2 e2 = true ->
  SFcompare (S754_finite s1 m1 e1) (S754_finite s2 m2 e2) =
  Some (aligned s1 m1 e1 (Z.min e1 e2) ?= aligned s2 m2 e2 (Z.min e1 e2)).
Proof.
  intros B1 B2. unfold aligned.
  rewrite !shl_align_value by lia.
  pose proof (magnitude_compare m1 m2 e1 e2 B1 B2) as M.
  assert (0 < 2 ^ (e1 - Z.min e1 e2)) by (apply Z.pow_pos_nonneg; lia).
  assert (0 < 2 ^ (e2 - Z.min e1 e2)) by (apply Z.pow_pos_nonneg; lia).
  destruct s1, s2; cbn [SFcompare cond_Zopp]; f_equal.
  - transitivity (CompOpp (Zpos m1 * 2 ^ (e1 - Z.min e1 e2) ?=
                           Zpos m2 * 2 ^ (e2 - Z.min e1 e2))).
    + rewrite <- M. destruct (e1 ?= e2); reflexivity.
    + rewrite <- Z.compare_antisym. symmetry. apply Z.compare_opp.
  - symmetry. apply Z.compare_lt_iff. nia.
  - symmetry. apply Z.compare_gt_iff. nia.
  - exact M.
Qed.

Lemma SFsigned_compare_zero (s : bool) (r : spec_float) :
  SFsigned s r -> SFcompare (S754_zero false) r = Some (if s then Gt else Lt).
Proof. intros [(m & e & ->)| ->]; reflexivity. Qed.

Lemma binary_normalize_sign (d e : Z) :
  emin <= e ->
  SFltb (S754_zero false) (binary_normalize prec emax d e false) = (0 <? d).
Proof.
  intros He. unfold SFltb. destruct d as [|p|p]; cbn [binary_normalize].
  - reflexivity.
  - now rewrite (SFsigned_compare_zero false) by now apply binary_round_signed.
  - now rewrite (SFsigned_compare_zero true) by now apply binary_round_signed.
Qed.

(** The sign of a rounded difference is the order of its operands. *)
Lemma SFsub_sign (x y : spec_float) :
  valid_binary x = true -> valid_binary y = true ->
  x <> S754_nan -> y <> S754_nan ->
  SFltb (S754_zero false) (SFsub prec emax y x) = SFltb x y.
Proof.
  intros Vx Vy Nx Ny.
  destruct x as [sx|sx| |sx mx ex], y as [sy|sy| |sy my ey];
    try congruence;
    try (destruct sx, sy; reflexivity);
    try (destruct sx; reflexivity);
    try (destruct sy; reflexivity).
  cbn [valid_binary] in Vx, Vy.
  unfold SFltb at 2. rewrite SFcompare_finite by assumption.
  cbn [SFsub]. fold (aligned sy my ey (Z.min ey ex)). fold (aligned sx mx ex (Z.min ey ex)).
  rewrite binary_normalize_sign.
  2:{ apply bounded_inv in Vx, Vy. lia. }
  rewrite (Z.min_comm ey ex).
  destruct (Z.compare_spec (aligned sx mx ex (Z.min ex ey)) (aligned sy my ey (Z.min ex ey)));
    lia.
Qed.

Lemma SFcompare_antisym (x y : spec_float) :
  SFcompare y x = option_map CompOpp (SFcompare x y).
Proof.
  destruct x as [sx|sx| |sx mx ex], y as [sy|sy| |sy my ey];
    try reflexivity;
    try (destruct sx, sy; reflexivity);
    try (destruct sx; reflexivity);
    try (destruct sy; reflexivity).
  cbn [SFcompare option_map].
  rewrite (Z.compare_antisym ex ey).
  change (Pos.compare_cont Eq my mx) with (my ?= mx)%positive.
  change (Pos.compare_cont Eq mx my) with (mx ?= my)%positive.
  rewrite (Pos.compare_antisym mx my).
  destruct sx, sy; try reflexivity;
    destruct (ex ?= ey); cbn [CompOpp]; try reflexivity.
Qed.

Lemma SFcompare_refl (x : spec_float) :
  x <> S754_nan -> SFcompare x x = Some Eq.
Proof.
  destruct x as [s|s| |s m e]; try congruence; intros _;
    try (destruct s; reflexivity).
  cbn [SFcompare]. rewrite Z.compare_refl.
  change (Pos.compare_cont Eq m m) with (m ?= m)%positive.
  rewrite Pos.compare_refl. now destruct s.
Qed.

Lemma lexcmp_spec (e1 : Z) (m1 : positive) (e2 : Z) (m2 : positive) :
  CompareSpec (e1 = e2 /\ Zpos m1 = Zpos m2)
              (e1 < e2 \/ (e1 = e2 /\ Zpos m1 < Zpos m2))
              (e2 < e1 \/ (e1 = e2 /\ Zpos m2 < Zpos m1))
              (lexcmp e1 m1 e2 m2).
Proof.
  unfold lexcmp. change (Pos.compare_cont Eq m1 m2) with (m1 ?= m2)%positive.
  destruct (Z.compare_spec e1 e2); [|constructor; lia|constructor; lia].
  destruct (Pos.compare_spec m1 m2); constructor; lia.
Qed.

Lemma lexcmp_opp (e1 : Z) (m1 : positive) (e2 : Z) (m2 : positive) :
  match e1 ?= e2 with
  | Lt => Gt
  | Gt => Lt
  | Eq => CompOpp (Pos.compare_cont Eq m1 m2)
  end = CompOpp (lexcmp e1 m1 e2 m2).
Proof. unfold lexcmp. now destruct (e1 ?= e2). Qed.

Lemma SFleb_trans (x y z : spec_float) :
  SFleb x y = true -> SFleb y z = true -> SFleb x z = true.
Proof.
  unfold SFleb.
  destruct x as [sx|sx| |sx mx ex], y as [sy|sy| |sy my ey], z as [sz|sz| |sz mz ez];
    cbn [SFcompare]; try discriminate; 
    try (destruct sx, sy, sz; (reflexivity || discriminate));
    try (destruct sx, sy; (reflexivity || discriminate));
    try (destruct sx, sz; (reflexivity || discriminate));
    try (destruct sy, sz; (reflexivity || discriminate));
    try (destruct sx; (reflexivity || discriminate));
    try (destruct sy; (reflexivity || discriminate));
    try (destruct sz; (reflexivity || discriminate)).
  rewrite !lexcmp_opp.
  fold (lexcmp ex mx ey my). fold (lexcmp ey my ez mz). fold (lexcmp ex mx ez mz).
  destruct sx, sy, sz; try (reflexivity || discriminate);
    destruct (lexcmp_spec ex mx ey my), (lexcmp_spec ey my ez mz),
             (lexcmp_spec ex mx ez mz);
    cbn [CompOpp]; intros Hxy Hyz; try reflexivity; try discriminate; exfalso; lia.
Qed.

(** From the specification to the primitive operations. *)

Lemma is_nan_spec (x : float) : is_nan x = false <-> Prim2SF x <> S754_nan.
Proof.
  unfold is_nan. rewrite FloatAxioms.eqb_spec. unfold SFeqb. split.
  - intros H E. rewrite E in H. discriminate.
  - intros H. now rewrite SFcompare_refl.
Qed.

Lemma sub_sign (x y : float) :
  is_nan x = false -> is_nan y = false ->
  (0 <? y - x)%float = (x <? y)%float.
Proof.
  intros Nx Ny. rewrite !FloatAxioms.ltb_spec, FloatAxioms.sub_spec.
  change (Prim2SF 0%float) with (S754_zero false).
  apply SFsub_sign; auto using Prim2SF_valid; now apply is_nan_spec.
Qed.

Lemma ltb_leb (x y : float) : (x <? y)%float = true -> (x <=? y)%float = true.
Proof.
  rewrite FloatAxioms.ltb_spec, FloatAxioms.leb_spec. unfold SFltb, SFleb.
  now destruct (SFcompare _ _) as [[]|].
Qed.

Lemma nltb_leb (x y : float) :
  is_nan x = false -> is_nan y = false ->
  (x <? y)%float = false -> (y <=? x)%float = true.
Proof.
  intros Nx Ny. rewrite FloatAxioms.ltb_spec, FloatAxioms.leb_spec. unfold SFltb, SFleb.
  rewrite (SFcompare_antisym (Prim2SF x) (Prim2SF y)).
  apply is_nan_spec in Nx, Ny.
  destruct (Prim2SF x) as [sx|sx| |sx mx ex], (Prim2SF y) as [sy|sy| |sy my ey];
    try congruence;
    destruct (SFcompare _ _) as [[]|] eqn:E; cbn; try congruence;
    cbn in E; try discriminate;
    repeat match goal with s : bool |- _ => destruct s end; discriminate.
Qed.

Lemma leb_trans (x y z : float) :
  (x <=? y)%float = true -> (y <=? z)%float = true -> (x <=? z)%float = true.
Proof. rewrite !FloatAxioms.leb_spec. apply SFleb_trans. Qed.

Lemma leb_refl (x : float) : is_nan x = false -> (x <=? x)%float = true.
Proof.
  intros Nx. rewrite FloatAxioms.leb_spec. unfold SFleb.
  now rewrite SFcompare_refl by now apply is_nan_spec.
Qed.

Lemma SFdiv_core_nonneg (m1 m2 : positive) (e1 e2 : Z) :
  0 <= fst (fst (SFdiv_core_binary prec emax (Zpos m1) e1 (Zpos m2) e2)).
Proof.
  unfold SFdiv_core_binary.
  set (s := e1 - e2 - _).
  set (m' := match s with Z0 => Zpos m1 | Zpos _ => Z.shiftl (Zpos m1) s | Zneg _ => 0 end).
  assert (Hm : 0 <= m').
  { subst m'. destruct s; try lia. apply Z.shiftl_nonneg. lia. }
  pose proof (Z.div_pos m' (Zpos m2) Hm ltac:(lia)) as Hq.
  unfold Z.div in Hq.
  destruct (Z.div_eucl m' (Zpos m2)) as [q r]. exact Hq.
Qed.

(** A quotient by a positive finite divisor is a number unless the dividend
    is not. *)
Lemma SFdiv_not_nan (x y : spec_float) :
  x <> S754_nan -> (forall s, y <> S754_infinity s) ->
  SFltb (S754_zero false) y = true ->
  SFdiv prec emax x y <> S754_nan.
Proof.
  intros Nx Fy Py.
  destruct y as [sy|sy| |sy my ey]; try discriminate.
  - now destruct (Fy sy).
  - destruct x as [sx|sx| |sx mx ex]; try congruence; try discriminate.
    cbn [SFdiv].
    pose proof (SFdiv_core_nonneg mx my ex ey) as Hq.
    destruct (SFdiv_core_binary prec emax (Zpos mx) ex (Zpos my) ey) as [[mz ez] lz].
    now apply binary_round_aux_nonneg.
Qed.

Lemma is_infinity_spec (y : float) :
  is_infinity y = false -> forall s, Prim2SF y <> S754_infinity s.
Proof.
  unfold is_infinity. rewrite FloatAxioms.eqb_spec, abs_spec.
  change (Prim2SF infinity) with (S754_infinity false).
  intros H s E. rewrite E in H. discriminate.
Qed.

Lemma div_not_nan (x y : float) :
  is_nan x = false -> is_infinity y = false -> (0 <? y)%float = true ->
  is_nan (x / y)%float = false.
Proof.
  intros Nx Fy Py. apply is_nan_spec. rewrite div_spec.
  rewrite FloatAxioms.ltb_spec in Py. change (Prim2SF 0%float) with (S754_zero false) in Py.
  apply SFdiv_not_nan; auto using is_infinity_spec. now apply is_nan_spec.
Qed.

Lemma eqb_zero_not_pos (x : float) :
  (x =? 0)%float = true -> (0 <? x)%float = false.
Proof.
  rewrite FloatAxioms.eqb_spec, FloatAxioms.ltb_spec. unfold SFeqb, SFltb.
  rewrite (SFcompare_antisym (Prim2SF x) (Prim2SF 0%float)).
  now destruct (SFcompare (Prim2SF x) (Prim2SF 0%float)) as [[]|].
Qed.

Local Close Scope Z_scope.

(** ** Maps keyed by strings *)

Lemma map_has_In {V : Type} (k : string) (m : list (string * V)) :
  map_has String.eqb k m = true <-> In k (map fst m).
Proof.
  induction m as [|[k' v] m IH]; simpl.
  - split; [discriminate | tauto].
  - rewrite orb_true_iff, String.eqb_eq, IH. tauto.
Qed.

Lemma map_has_get {V : Type} (k : string) (m : list (string * V)) :
  map_has String.eqb k m = match map_get String.eqb k m with Some _ => true | None => false end.
Proof.
  induction m as [|[k' v] m IH]; simpl; [reflexivity|].
  destruct (k' =? k); simpl; auto.
Qed.

Lemma map_set_keys {V : Type} (k : string) (v : V) (m : list (string * V)) :
  map fst (map_set String.eqb k v m) =
  if map_has String.eqb k m then map fst m else (map fst m ++ [k])%list.
Proof.
  induction m as [|[k' v'] m IH]; simpl; [reflexivity|].
  destruct (k' =? k); simpl; [reflexivity|].
  rewrite IH. now destruct (map_has String.eqb k m).
Qed.

Lemma map_update_keys {V : Type} (k : string) (f : V -> V) (m : list (string * V)) :
  map fst (map_update String.eqb k f m) = map fst m.
Proof.
  induction m as [|[k' v'] m IH]; simpl; [reflexivity|].
  destruct (k' =? k); simpl; now rewrite ?IH.
Qed.

Lemma map_has_update {V : Type} (k k' : string) (f : V -> V) (m : list (string * V)) :
  map_has String.eqb k' (map_update String.eqb k f m) = map_has String.eqb k' m.
Proof.
  induction m as [|[k0 v0] m IH]; simpl; [reflexivity|].
  destruct (k0 =? k); simpl; now rewrite ?IH.
Qed.

Lemma map_get_update {V : Type} (k k' : string) (f : V -> V) (m : list (string * V)) :
  map_get String.eqb k' (map_update String.eqb k f m) =
  if k =? k' then option_map f (map_get String.eqb k m) else map_get String.eqb k' m.
Proof.
  induction m as [|[k0 v0] m IH]; simpl.
  - now destruct (k =? k').
  - destruct (String.eqb_spec k0 k) as [->|Hk]; simpl.
    + destruct (String.eqb_spec k k'); simpl; reflexivity.
    + rewrite IH. destruct (String.eqb_spec k0 k') as [->|Hk']; [|reflexivity].
      destruct (String.eqb_spec k k'); [congruence | reflexivity].
Qed.

Lemma map_get_set {V : Type} (k k' : string) (v : V) (m : list (string * V)) :
  map_get String.eqb k' (map_set String.eqb k v m) =
  if k =? k' then Some v else map_get String.eqb k' m.
Proof.
  induction m as [|[k0 v0] m IH]; simpl.
  - reflexivity.
  - destruct (String.eqb_spec k0 k) as [->|Hk]; simpl.
    + destruct (String.eqb_spec k k'); simpl; reflexivity.
    + rewrite IH. destruct (String.eqb_spec k0 k') as [->|Hk']; [|reflexivity].
      destruct (String.eqb_spec k k'); [congruence | reflexivity].
Qed.

Lemma map_set_NoDup {V : Type} (k : string) (v : V) (m : list (string * V)) :
  NoDup (map fst m) -> NoDup (map fst (map_set String.eqb k v m)).
Proof.
  intros H. rewrite map_set_keys.
  destruct (map_has String.eqb k m) eqn:E; [assumption|].
  apply NoDup_app; [assumption | repeat constructor; auto | ].
  intros x Hx [->|[]].
  apply map_has_In in Hx. congruence.
Qed.

(** ** Task allocation and aggregation *)

Lemma allocate_step_keys (ready : list (string * AgentData))
    (acc : list (string * Subtask) * nat) (subtask : Subtask) :
  NoDup (map fst (fst acc)) ->
  incl (map fst (fst acc)) (map fst ready) ->
  NoDup (map fst (fst (allocate_step ready acc subtask))) /\
  incl (map fst (fst (allocate_step ready acc subtask))) (map fst ready).
Proof.
  destruct acc as [allocations agentIndex]. unfold allocate_step. cbn [fst].
  intros Hnd Hin.
  destruct (length ready =? 0)%nat; [now split|].
  destruct (nth_error ready (agentIndex mod length ready)) as [[a d]|] eqn:E;
    [|now split].
  cbn [fst]. split; [now apply map_set_NoDup|].
  rewrite map_set_keys. destruct (map_has String.eqb a allocations); [assumption|].
  apply incl_app; [assumption|].
  intros x [<-|[]]. apply nth_error_In in E.
  change a with (fst (a, d)). now apply in_map.
Qed.

(** What the [Map] of [allocateSubtasks] can hold: one assignment per ready
    agent at most, whatever the number of subtasks. *)
Lemma allocateSubtasks_one_per_agent (c : MultiAgentCoordinator)
    (subtasks : list Subtask) :
  NoDup (map fst (allocateSubtasks c subtasks)) /\
  length (allocateSubtasks c subtasks) <= length (readyAgents c).
Proof.
  unfold allocateSubtasks.
  assert (H : forall acc,
             NoDup (map fst (fst acc)) ->
             incl (map fst (fst acc)) (map fst (readyAgents c)) ->
             NoDup (map fst (fst (fold_left (allocate_step (readyAgents c)) subtasks acc))) /\
             incl (map fst (fst (fold_left (allocate_step (readyAgents c)) subtasks acc)))
                  (map fst (readyAgents c))).
  { induction subtasks as [|t ts IH]; intros acc Hnd Hin; [now split|].
    cbn [fold_left].
    destruct (allocate_step_keys (readyAgents c) acc t Hnd Hin) as [Hnd' Hin'].
    now apply IH. }
  destruct (H ([], 0)) as [Hnd Hin]; [constructor | intros x [] |].
  split; [exact Hnd|].
  rewrite <- (length_map fst (fst _)), <- (length_map fst (readyAgents c)).
  now apply NoDup_incl_length.
Qed.

(** C1, where the code departs from it: agents A (success rate 0.9) and B
    (0.5) are ranked A, B, but [allocateSubtasks] fills a [Map] keyed by agent
    id, so the third of three subtasks replaces the first under A. The
    result holds two assignments, A with the third subtask and B with the
    second, not the three assignments A, B, A of the claim. The same happens
    with two agents just registered (equal rates, ranked in registration
    order). *)
Theorem allocateSubtasks_overwrites :
  map fst (readyAgents coordinator_AB) = ["A"; "B"] /\
  allocateSubtasks coordinator_AB three_subtasks = [("A", VStr "s2"); ("B", VStr "s1")] /\
  length (allocateSubtasks coordinator_AB three_subtasks) <> length three_subtasks /\
  map fst (readyAgents coordinator_registered) = ["A"; "B"] /\
  allocateSubtasks coordinator_registered three_subtasks =
    [("A", VStr "s2"); ("B", VStr "s1")].
Proof. repeat split; vm_compute; congruence. Qed.

(** C2, where the code departs from it: [aggregateResults] divides
    [successful.length] by [results.length] without a guard, so on no result
    the success rate of the summary is 0/0, NaN, and not 0. A coordinator
    without a ready agent reaches this through [distributeTask]. *)
Theorem aggregateResults_empty_is_nan :
  (exists s, aggregateResults [] = Normal s /\
             totalTasks s = 0 /\
             PrimFloat.is_nan (summary_successRate s) = true /\
             (summary_successRate s =? 0)%float = false) /\
  (exists s, snd (distributeTask "key" 0%float "task" three_subtasks
                    new_MultiAgentCoordinator) = Returned s /\
             PrimFloat.is_nan (summary_successRate s) = true).
Proof.
  split; eexists; repeat split; vm_compute; reflexivity.
Qed.

(** The part of C2 that the code has: the rate is the quotient of the two
    counts. *)
Lemma aggregateResults_rate (rs : list Settled) (s : TaskSummary) :
  aggregateResults rs = Normal s ->
  totalTasks s = length rs /\
  successful s = length (filter is_successful rs) /\
  failed s = length (filter is_failed rs) /\
  summary_successRate s =
    (number_of_nat (successful s) / number_of_nat (totalTasks s))%float.
Proof.
  unfold aggregateResults.
  destruct (map_completion result_entry _); [|discriminate].
  destruct (map_completion error_entry _); [|discriminate].
  intros [= <-]. repeat split.
Qed.

(** ** Pattern extraction *)

Lemma extract_fold (acts : list Action) (idxs : list nat) :
  forall (pats : list string) (tbl : PatternTable),
  fold_left (extract_step acts) idxs (pats, tbl) =
  ((pats ++ map (triple_at acts) idxs)%list,
   fold_left (fun t p => touch p t) (map (triple_at acts) idxs) tbl).
Proof.
  induction idxs as [|i idxs IH]; intros pats tbl; simpl.
  - now rewrite app_nil_r.
  - rewrite IH, <- app_assoc. reflexivity.
Qed.

Lemma extractPatterns_fst (acts : list Action) (tbl : PatternTable) :
  fst (extractPatterns acts tbl) = map (triple_at acts) (seq 0 (length acts - 2)).
Proof. unfold extractPatterns. now rewrite extract_fold. Qed.

Lemma extractPatterns_snd (acts : list Action) (tbl : PatternTable) :
  snd (extractPatterns acts tbl) =
  fold_left (fun t p => touch p t) (fst (extractPatterns acts tbl)) tbl.
Proof. unfold extractPatterns. now rewrite extract_fold. Qed.

Lemma touch_get (p k : string) (tbl : PatternTable) :
  map_get String.eqb k (touch p tbl) =
  if p =? k then Some (bump_n 1 (entry_or_new (map_get String.eqb p tbl)))
  else map_get String.eqb k tbl.
Proof.
  unfold touch. rewrite map_has_get.
  destruct (map_get String.eqb p tbl) as [d|] eqn:E; rewrite map_get_update.
  - rewrite E. reflexivity.
  - rewrite !map_get_set, String.eqb_refl.
    destruct (p =? k); reflexivity.
Qed.

Lemma touch_all_get (k : string) (pats : list string) :
  forall tbl : PatternTable,
  map_get String.eqb k (fold_left (fun t p => touch p t) pats tbl) =
  match count_occ string_dec pats k with
  | 0 => map_get String.eqb k tbl
  | S n => Some (bump_n (S n) (entry_or_new (map_get String.eqb k tbl)))
  end.
Proof.
  induction pats as [|p pats IH]; intros tbl; [reflexivity|].
  cbn [fold_left count_occ]. rewrite IH, touch_get.
  destruct (string_dec p k) as [->|Hp].
  - rewrite String.eqb_refl.
    destruct (count_occ string_dec pats k) as [|n]; [reflexivity|].
    unfold bump_n. cbn [entry_or_new count successTotal]. f_equal. f_equal.
    now rewrite <- !Nat.iter_succ_r.
  - apply String.eqb_neq in Hp. rewrite Hp. reflexivity.
Qed.

Lemma touch_keys_NoDup (p : string) (tbl : PatternTable) :
  NoDup (map fst tbl) -> NoDup (map fst (touch p tbl)).
Proof.
  intros H. unfold touch. rewrite map_update_keys.
  destruct (map_has String.eqb p tbl); [assumption|]. now apply map_set_NoDup.
Qed.

(** C5: a sequence of [L] actions gives [max (L - 2) 0] signatures, the one at
    position [i] being the three types from [i] on joined by [-]; fewer than
    three actions give none; and afterwards the entry of every signature
    holds the count it had before (0 for an entry just created) incremented
    once per occurrence of the signature, while the other entries are as they
    were. *)
Theorem extractPatterns_signatures (acts : list Action) (tbl : PatternTable) :
  let pats := fst (extractPatterns acts tbl) in
  let tbl' := snd (extractPatterns acts tbl) in
  Z.of_nat (length pats) = Z.max (Z.of_nat (length acts) - 2) 0 /\
  (forall i a b c,
      nth_error acts i = Some a ->
      nth_error acts (i + 1) = Some b ->
      nth_error acts (i + 2) = Some c ->
      nth_error pats i = Some (type a ++ "-" ++ type b ++ "-" ++ type c)) /\
  (length acts < 3 -> pats = []) /\
  (forall k,
      map_get String.eqb k tbl' =
      match count_occ string_dec pats k with
      | 0 => map_get String.eqb k tbl
      | S n => Some (bump_n (S n) (entry_or_new (map_get String.eqb k tbl)))
      end).
Proof.
  cbv zeta. rewrite extractPatterns_snd, extractPatterns_fst.
  repeat split.
  - rewrite length_map, length_seq. lia.
  - intros i a b c Ha Hb Hc.
    assert (Hi : i < length acts - 2).
    { assert (i + 2 < length acts) by (apply nth_error_Some; congruence). lia. }
    rewrite nth_error_map, nth_error_seq.
    apply Nat.ltb_lt in Hi. rewrite Hi. cbn [option_map Nat.add].
    unfold triple_at, action_type. rewrite Ha, Hb, Hc. reflexivity.
  - intros H. replace (length acts - 2) with 0 by lia. reflexivity.
  - intros k. apply touch_all_get.
Qed.

(** The scenario of the specification: a session of five actions gives three
    signatures, each counted once. *)
Example extractPatterns_five_actions :
  extractPatterns (map action ["m"; "c"; "k"; "m"; "c"]) [] =
  (["m-c-k"; "c-k-m"; "k-m-c"],
   [("m-c-k", {| count := 1%float; successTotal := 0%float |});
    ("c-k-m", {| count := 1%float; successTotal := 0%float |});
    ("k-m-c", {| count := 1%float; successTotal := 0%float |})]).
Proof. reflexivity. Qed.

(** ** The bounded replay store *)

Lemma extractPatterns_fst_table (acts : list Action) (tbl tbl' : PatternTable) :
  fst (extractPatterns acts tbl) = fst (extractPatterns acts tbl').
Proof. now rewrite !extractPatterns_fst. Qed.

Lemma record_spec (r : ReplaySystem) (x : Recording) :
  config (record r x) = config r /\
  patterns (record r x) = snd (extractPatterns (rec_actions x) (patterns r)) /\
  replays (record r x) =
    if (maxReplays (config r) <? length (replays r ++ [session_of x]))%nat
    then tl (replays r ++ [session_of x])
    else (replays r ++ [session_of x])%list.
Proof.
  unfold record, recordSession, session_of.
  rewrite (extractPatterns_fst_table (rec_actions x) [] (patterns r)).
  destruct (extractPatterns (rec_actions x) (patterns r)) as [pats tbl].
  repeat split.
Qed.

(** One call on a store within its capacity: the new session is last, and the
    oldest one leaves when the capacity would be exceeded. *)
Lemma record_within (r : ReplaySystem) (x : Recording) :
  length (replays r) <= maxReplays (config r) ->
  replays (record r x) =
    skipn (length (replays r) + 1 - maxReplays (config r)) (replays r ++ [session_of x]) /\
  length (replays (record r x)) <= maxReplays (config r).
Proof.
  intros Hcap. destruct (record_spec r x) as (_ & _ & ->).
  rewrite length_app. cbn [length].
  destruct (Nat.ltb_spec (maxReplays (config r)) (length (replays r) + 1)) as [Hlt|Hge].
  - replace (length (replays r) + 1 - maxReplays (config r)) with 1 by lia.
    split; [now destruct (replays r ++ [session_of x])%list|].
    destruct (replays r) as [|s l]; cbn [app tl length] in *; [lia|].
    rewrite length_app. cbn [length]. lia.
  - replace (length (replays r) + 1 - maxReplays (config r)) with 0 by lia.
    split; [reflexivity|]. rewrite length_app. cbn [length]. lia.
Qed.

Lemma record_all_config (xs : list Recording) : forall r,
  config (record_all r xs) = config r.
Proof.
  induction xs as [|x xs IH]; intros r; [reflexivity|].
  cbn [record_all fold_left]. fold (record_all (record r x) xs).
  rewrite IH. apply record_spec.
Qed.

Lemma skipn_app_le {A : Type} (n : nat) (l1 l2 : list A) :
  n <= length l1 -> (skipn n l1 ++ l2)%list = skipn n (l1 ++ l2).
Proof.
  intros H. rewrite skipn_app.
  replace (n - length l1) with 0 by lia. reflexivity.
Qed.

(** Any number of calls on a store within its capacity: what remains is the
    end of the sequence of sessions, old ones first. *)
Lemma record_all_within (xs : list Recording) : forall r,
  length (replays r) <= maxReplays (config r) ->
  replays (record_all r xs) =
    skipn (length (replays r) + length xs - maxReplays (config r))
          (replays r ++ map session_of xs).
Proof.
  induction xs as [|x xs IH]; intros r Hcap.
  - cbn [record_all fold_left map length]. rewrite app_nil_r.
    replace (length (replays r) + 0 - maxReplays (config r)) with 0 by lia.
    reflexivity.
  - cbn [record_all fold_left]. fold (record_all (record r x) xs).
    destruct (record_within r x Hcap) as [Hrep Hlen].
    assert (Hcfg : config (record r x) = config r) by apply record_spec.
    rewrite IH by (rewrite Hcfg; exact Hlen).
    rewrite Hcfg, Hrep. cbn [map length].
    set (cap := maxReplays (config r)) in *.
    set (l := replays r) in *.
    replace (l ++ session_of x :: map session_of xs)%list
      with ((l ++ [session_of x]) ++ map session_of xs)%list
      by (rewrite <- app_assoc; reflexivity).
    set (l1 := (l ++ [session_of x])%list).
    assert (Hl1 : length l1 = length l + 1)
      by (unfold l1; rewrite length_app; reflexivity).
    rewrite skipn_app_le by lia.
    rewrite skipn_skipn, length_skipn, Hl1.
    f_equal. lia.
Qed.

(** C4, as amended: on a store that holds at most [maxReplays] sessions
    (1000 by default), after any sequence of [recordSession] calls the store
    still holds at most [maxReplays] sessions, and they are the most recent
    ones in the order of their insertion; starting from an empty store, after
    [maxReplays + k] calls exactly the first [k] sessions are gone. *)
Theorem recordSession_keeps_most_recent (r : ReplaySystem) (xs : list Recording) :
  length (replays r) <= maxReplays (config r) ->
  let r' := record_all r xs in
  maxReplays default_config = 1000 /\
  length (replays r') <= maxReplays (config r) /\
  replays r' =
    skipn (length (replays r) + length xs - maxReplays (config r))
          (replays r ++ map session_of xs) /\
  (replays r = [] ->
   forall k, length xs = maxReplays (config r) + k ->
             replays r' = skipn k (map session_of xs) /\
             length (replays r') = maxReplays (config r)).
Proof.
  intros Hcap. cbv zeta.
  rewrite (record_all_within xs r Hcap).
  split; [reflexivity|]. split; [|split; [reflexivity|]].
  - rewrite length_skipn, length_app, length_map. lia.
  - intros Hnil k Hk. rewrite Hnil. cbn [app length].
    rewrite length_skipn, length_map.
    replace (0 + length xs - maxReplays (config r)) with k by lia.
    split; [reflexivity | lia].
Qed.

(** The theorem at a new system of capacity 2 and three calls: the last two
    sessions remain. *)
Lemma recordSession_keeps_most_recent_witness :
  length (replays (new_ReplaySystem small_config)) <= maxReplays small_config /\
  replays (record_all (new_ReplaySystem small_config)
                      [recording "0a"; recording "0b"; recording "0c"]) =
    [session_of (recording "0b"); session_of (recording "0c")].
Proof.
  split; [cbn; lia|].
  pose proof (recordSession_keeps_most_recent (new_ReplaySystem small_config)
                [recording "0a"; recording "0b"; recording "0c"]
                ltac:(cbn; lia)) as H.
  cbv zeta in H. destruct H as (_ & _ & H & _). exact H.
Defined.

(** C4 as stated fails on a store that is over its capacity before the call,
    as it is after [loadReplays] has read the snapshot of a larger system:
    [recordSession] evicts one session for the one it adds, and three
    sessions remain where [maxReplays] is 2. *)
Lemma recordSession_over_capacity :
  (exists file,
     saveReplays true "t9" (memory_of store_saved) = Some file /\
     loadReplays (Some file) (memory_of (new_ReplaySystem small_config)) =
       (true, memory_of store_loaded)) /\
  maxReplays (config store_loaded) = 2 /\
  length (replays store_loaded) = 3 /\
  length (replays (record store_loaded (recording "0d"))) = 3 /\
  (length (replays (record store_loaded (recording "0d")))
     <=? maxReplays (config (record store_loaded (recording "0d"))))%nat = false.
Proof.
  split; [eexists; split; reflexivity|]. repeat split.
Qed.

(** ** Learning from successful replays *)

Lemma credit_app (rs1 rs2 : list number) (d : PatternData) :
  credit (rs1 ++ rs2) d = credit rs2 (credit rs1 d).
Proof. unfold credit. cbn [count successTotal]. now rewrite fold_left_app. Qed.

Lemma option_map_credit_nil (o : option PatternData) : option_map (credit []) o = o.
Proof. now destruct o as [[c t]|]. Qed.

Lemma learn_pattern_step (rate : number) (tbl : PatternTable) (n : nat) (p : string) :
  learn_pattern rate (tbl, n) p =
  if map_has String.eqb p tbl
  then (map_update String.eqb p
          (fun d => {| count := count d; successTotal := (successTotal d + rate)%float |})
          tbl, S n)
  else (tbl, n).
Proof. reflexivity. Qed.

(** The inner loop, over the pattern list of one replay of success rate
    [rate]: every occurrence of a signature that is in the table adds [rate]
    to the entry and counts as learned. *)
Lemma learn_patterns_fold (rate : number) (ps : list string) :
  forall (tbl : PatternTable) (n : nat),
  let out := fold_left (learn_pattern rate) ps (tbl, n) in
  snd out = n + length (filter (fun p => map_has String.eqb p tbl) ps) /\
  map fst (fst out) = map fst tbl /\
  (forall k, map_get String.eqb k (fst out) =
             option_map (credit (map (fun _ => rate) (filter (String.eqb k) ps)))
                        (map_get String.eqb k tbl)).
Proof.
  induction ps as [|p ps IH]; intros tbl n; cbv zeta.
  - cbn. repeat split; [lia|]. intros k. now rewrite option_map_credit_nil.
  - cbn [fold_left]. rewrite learn_pattern_step.
    destruct (map_has String.eqb p tbl) eqn:Hp.
    + set (tbl1 := map_update String.eqb p _ tbl).
      destruct (IH tbl1 (S n)) as (Hn & Hk & Hg).
      assert (Hhas : forall q, map_has String.eqb q tbl1 = map_has String.eqb q tbl)
        by (intros q; apply map_has_update).
      repeat split.
      * etransitivity; [apply Hn|]. cbn [filter]. rewrite Hp. cbn [length].
        rewrite (filter_ext _ _ Hhas). lia.
      * etransitivity; [apply Hk|]. apply map_update_keys.
      * intros k. etransitivity; [apply Hg|]. unfold tbl1. rewrite map_get_update.
        cbn [filter]. rewrite (String.eqb_sym k p).
        destruct (String.eqb_spec p k) as [->|Hne]; [|reflexivity].
        cbn [map]. now destruct (map_get String.eqb k tbl) as [[c t]|].
    + destruct (IH tbl n) as (Hn & Hk & Hg).
      repeat split.
      * rewrite Hn. cbn [filter]. now rewrite Hp.
      * exact Hk.
      * intros k. rewrite Hg. cbn [filter]. rewrite (String.eqb_sym k p).
        destruct (String.eqb_spec p k) as [->|Hne]; [|reflexivity].
        rewrite map_has_get in Hp.
        now destruct (map_get String.eqb k tbl).
Qed.

(** The outer loop, over the replays that qualify. *)
Lemma learn_replays_fold (good : list Session) :
  forall (tbl : PatternTable) (n : nat),
  let out := fold_left learn_replay good (tbl, n) in
  snd out = n + length (filter (fun p => map_has String.eqb p tbl)
                               (flat_map session_patterns good)) /\
  map fst (fst out) = map fst tbl /\
  (forall k, map_get String.eqb k (fst out) =
             option_map (credit (occurrence_rates k good)) (map_get String.eqb k tbl)).
Proof.
  induction good as [|s good IH]; intros tbl n; cbv zeta.
  - cbn. repeat split; [lia|]. intros k. now rewrite option_map_credit_nil.
  - cbn [fold_left]. unfold learn_replay at 2 4 6.
    destruct (learn_patterns_fold (session_successRate s) (session_patterns s) tbl n)
      as (Hn1 & Hk1 & Hg1).
    destruct (fold_left (learn_pattern (session_successRate s)) (session_patterns s) (tbl, n))
      as [tbl1 n1]. cbn [fst snd] in Hn1, Hk1, Hg1.
    destruct (IH tbl1 n1) as (Hn & Hk & Hg).
    assert (Hhas : forall q, map_has String.eqb q tbl1 = map_has String.eqb q tbl).
    { intros q. rewrite !map_has_get, Hg1. now destruct (map_get String.eqb q tbl). }
    repeat split.
    + rewrite Hn, Hn1. cbn [flat_map]. rewrite filter_app, length_app.
      rewrite (filter_ext _ _ Hhas). lia.
    + now rewrite Hk.
    + intros k. rewrite Hg, Hg1. unfold occurrence_rates. cbn [flat_map].
      destruct (map_get String.eqb k tbl) as [d|]; [|reflexivity].
      cbn [option_map]. now rewrite credit_app.
Qed.

(** C6: for every threshold, learning adds to the entry of each signature the
    success rate of every qualifying session once per occurrence of the
    signature in the pattern list of that session, in order, and changes
    nothing else; it returns the number of qualifying sessions, the number of
    occurrences added (those whose signature is in the table) and the size of
    the table. Sessions that do not reach the threshold add nothing. *)
Theorem learnFromSuccessfulReplays_credits (threshold : number) (r : ReplaySystem) :
  let good := filter (fun s => (threshold <=? session_successRate s)%float) (replays r) in
  let stats := fst (learnFromSuccessfulReplays threshold r) in
  let r' := snd (learnFromSuccessfulReplays threshold r) in
  successfulReplays stats = length good /\
  patternsLearned stats =
    length (filter (fun p => map_has String.eqb p (patterns r))
                   (flat_map session_patterns good)) /\
  totalPatterns stats = length (patterns r) /\
  replays r' = replays r /\
  map fst (patterns r') = map fst (patterns r) /\
  (forall k, map_get String.eqb k (patterns r') =
             option_map (credit (occurrence_rates k good))
                        (map_get String.eqb k (patterns r))) /\
  (good = [] -> forall k, map_get String.eqb k (patterns r') = map_get String.eqb k (patterns r)).
Proof.
  cbv zeta. unfold learnFromSuccessfulReplays.
  change (filter (qualifies threshold) (replays r))
    with (filter (fun s => (threshold <=? session_successRate s)%float) (replays r)).
  set (good := filter _ (replays r)).
  destruct (learn_replays_fold good (patterns r) 0) as (Hn & Hk & Hg).
  destruct (fold_left learn_replay good (patterns r, 0)) as [tbl learned].
  cbn [fst snd] in *. cbn [successfulReplays patternsLearned totalPatterns replays patterns].
  repeat split; try assumption.
  - rewrite <- (length_map fst tbl), Hk. apply length_map.
  - intros Hnil k. rewrite Hg, Hnil. apply option_map_credit_nil.
Qed.

(** The scenario of the specification: with threshold 0.7 only the session of
    success rate 0.9 is learned from, and its one occurrence of [m-c-k] is
    added to that entry. *)
Example learn_scenario :
  map session_patterns (replays store_scenario) = [["m-c-k"]; ["m-c-k"; "c-k-m"]] /\
  fst (learnFromSuccessfulReplays 0.7%float store_scenario) =
    {| successfulReplays := 1; patternsLearned := 1; totalPatterns := 2 |} /\
  patterns (snd (learnFromSuccessfulReplays 0.7%float store_scenario)) =
    [("m-c-k", {| count := 2%float; successTotal := 0.9%float |});
     ("c-k-m", {| count := 1%float; successTotal := 0%float |})].
Proof. repeat split. Qed.

(** ** Ranking *)

Section Sorting.
Context {A : Type}.
Variable key : A -> number.

Lemma sort_insert_perm (c : A -> A -> number) (x : A) (l : list A) :
  Permutation (sort_insert c x l) (x :: l).
Proof.
  induction l as [|y l IH]; cbn [sort_insert]; [reflexivity|].
  destruct (0 <? c x y)%float; [|reflexivity].
  rewrite IH. apply perm_swap.
Qed.

Lemma sort_perm (c : A -> A -> number) (l : list A) : Permutation (sort c l) l.
Proof.
  induction l as [|x l IH]; cbn [sort fold_right]; [reflexivity|].
  fold (sort c l). rewrite sort_insert_perm. now constructor.
Qed.

(** With the comparator [(a, b) => key(b) - key(a)] on keys that are numbers,
    insertion keeps a list in descending order of key. *)
Lemma sort_insert_sorted (x : A) (l : list A) :
  PrimFloat.is_nan (key x) = false ->
  Forall (fun y => PrimFloat.is_nan (key y) = false) l ->
  StronglySorted (descending key) l ->
  StronglySorted (descending key) (sort_insert (fun a b => (key b - key a)%float) x l).
Proof.
  intros Nx Nl Hs. induction Hs as [|y l Hs IH Hy]; cbn [sort_insert].
  - repeat constructor.
  - inversion Nl as [|? ? Ny Nl']; subst.
    rewrite sub_sign by assumption.
    destruct (key x <? key y)%float eqn:E.
    + constructor; [now apply IH|].
      apply (Permutation_Forall (Permutation_sym (sort_insert_perm _ x l))).
      constructor; [|assumption]. now apply ltb_leb.
    + assert (Hxy : descending key x y) by now apply nltb_leb.
      constructor; [now constructor|]. constructor; [assumption|].
      eapply Forall_impl; [|exact Hy].
      intros z Hz. unfold descending in *. eapply leb_trans; eassumption.
Qed.

Lemma sort_sorted (l : list A) :
  Forall (fun y => PrimFloat.is_nan (key y) = false) l ->
  StronglySorted (descending key) (sort (fun a b => (key b - key a)%float) l).
Proof.
  induction l as [|x l IH]; intros N; cbn [sort fold_right]; [constructor|].
  fold (sort (fun a b => (key b - key a)%float) l). inversion N; subst.
  apply sort_insert_sorted; auto.
  now apply (Permutation_Forall (Permutation_sym (sort_perm _ l))).
Qed.

End Sorting.

Lemma StronglySorted_firstn {A : Type} (R : A -> A -> Prop) (n : nat) (l : list A) :
  StronglySorted R l -> StronglySorted R (firstn n l).
Proof.
  intros H. revert n. induction H as [|x l Hs IH Hx]; intros [|n]; cbn [firstn];
    try constructor; auto.
  apply Forall_forall. intros y Hy. rewrite Forall_forall in Hx.
  apply Hx. rewrite <- (firstn_skipn n l). apply in_or_app. now left.
Qed.

Lemma slice0_firstn {A : Type} (topK : Z) (l : list A) :
  (0 <= topK)%Z -> slice0 topK l = firstn (Z.to_nat topK) l.
Proof.
  intros H. unfold slice0.
  destruct (Z.ltb_spec topK 0) as [Hneg|_]; [lia|].
  destruct (Z.le_ge_cases topK (Z.of_nat (length l))) as [Hle|Hge].
  - now rewrite Z.min_l.
  - rewrite Z.min_r, Nat2Z.id by assumption.
    rewrite firstn_all. symmetry. apply firstn_all2. lia.
Qed.

(** The score of a well-formed entry is a number: the division is guarded
    against a zero count. *)
Lemma score_not_nan (e : string * PatternData) :
  entry_finite (snd e) = true ->
  PrimFloat.is_nan (score_successRate (score e)) = false.
Proof.
  destruct e as [p d]. unfold entry_finite, score. cbn [snd score_successRate].
  intros H. apply andb_prop in H as [Ht Hc].
  apply negb_true_iff in Ht.
  unfold PrimFloat.is_finite in Hc. apply negb_true_iff, orb_false_iff in Hc as [_ Hc].
  destruct (0 <? count d)%float eqn:E; [|reflexivity].
  now apply div_not_nan.
Qed.

(** The tables of the data model are among those of the theorem below. *)
Lemma model_table_finite (tbl : PatternTable) :
  forallb (fun e => entry_of_model (snd e)) tbl = true -> table_finite tbl = true.
Proof.
  unfold table_finite. rewrite !forallb_forall. intros H e He.
  specialize (H e He). unfold entry_of_model in H. unfold entry_finite.
  apply andb_prop in H as [H Hf]. apply andb_prop in H as [Ht _].
  rewrite Hf, andb_true_r. apply negb_true_iff.
  rewrite FloatAxioms.leb_spec in Ht. unfold SFleb in Ht.
  apply is_nan_spec. intros E. rewrite E in Ht.
  change (Prim2SF 0) with (S754_zero false) in Ht. discriminate.
Qed.

(** C7: for every [topK] (a number of entries: [topK >= 0]) and every table
    of the data model (the theorem asks less of the table: that every
    [successTotal] is a number and every [count] finite), the query returns
    at most [topK] entries, each one the score of an entry of the table (its
    signature, its count as frequency, and as success rate
    [successTotal / count] when [count > 0] and 0 otherwise), no success rate
    is NaN, an entry whose count is 0 has success rate 0, and the success
    rates never increase along the list. *)
Theorem getRecommendedPatterns_ranked
    (currentContext : string) (topK : Z) (r : ReplaySystem) :
  (0 <= topK)%Z ->
  table_finite (patterns r) = true ->
  let res := getRecommendedPatterns currentContext topK r in
  (Z.of_nat (length res) <= topK)%Z /\
  (forall s, In s res ->
     PrimFloat.is_nan (score_successRate s) = false /\
     exists d, In (pattern s, d) (patterns r) /\
               frequency s = count d /\
               score_successRate s =
                 (if (0 <? count d)%float then (successTotal d / count d)%float
                  else 0%float) /\
               ((count d =? 0)%float = true -> score_successRate s = 0%float)) /\
  StronglySorted ranked res.
Proof.
  intros HK Hfin. cbv zeta. unfold getRecommendedPatterns.
  rewrite slice0_firstn by assumption.
  set (sorted := sort _ (map score (patterns r))).
  assert (Hperm : Permutation sorted (map score (patterns r))) by apply sort_perm.
  assert (Hnan : Forall (fun s => PrimFloat.is_nan (score_successRate s) = false)
                        (map score (patterns r))).
  { apply Forall_forall. intros s Hs. apply in_map_iff in Hs as (e & <- & He).
    apply score_not_nan. unfold table_finite in Hfin.
    rewrite forallb_forall in Hfin. now apply Hfin. }
  repeat split.
  - rewrite length_firstn. lia.
  - rewrite Forall_forall in Hnan. apply Hnan.
    apply (Permutation_in _ Hperm). rewrite <- (firstn_skipn (Z.to_nat topK) sorted).
    apply in_or_app. now left.
  - assert (Hs : In s (map score (patterns r))).
    { apply (Permutation_in _ Hperm). rewrite <- (firstn_skipn (Z.to_nat topK) sorted).
      apply in_or_app. now left. }
    apply in_map_iff in Hs as ([p d] & <- & He).
    exists d. cbn [score pattern frequency score_successRate].
    repeat split; try assumption.
    intros Hz. now rewrite (eqb_zero_not_pos _ Hz).
  - apply StronglySorted_firstn.
    apply (sort_sorted score_successRate (map score (patterns r))). exact Hnan.
Qed.

(** The theorem at a system with two learned signatures, a table of the
    data model, and [topK = 1]. *)
Lemma getRecommendedPatterns_ranked_witness :
  (0 <= 1)%Z /\ table_finite (patterns store_two) = true /\
  (Z.of_nat (length (getRecommendedPatterns "" 1 store_two)) <= 1)%Z /\
  StronglySorted ranked (getRecommendedPatterns "" 1 store_two).
Proof.
  split; [lia|]. split; [reflexivity|].
  pose proof (getRecommendedPatterns_ranked "" 1 store_two ltac:(lia) eq_refl) as H.
  cbv zeta in H. split; apply H.
Defined.

(** What the query does where the theorem does not apply: [slice(0, -1)]
    keeps all entries but the last, so [topK = -1] on a table of two entries
    returns one entry; and an entry whose [successTotal] is NaN (no entry of
    the data model: it takes sessions recorded with the rates [Infinity] and
    [-Infinity]) comes out with a NaN success rate. *)
Lemma getRecommendedPatterns_unbounded :
  length (patterns store_two) = 2 /\
  length (getRecommendedPatterns "" (-1) store_two) = 1 /\
  (Z.of_nat (length (getRecommendedPatterns "" (-1) store_two)) <=? -1)%Z = false /\
  map (fun s => PrimFloat.is_nan (score_successRate s))
      (getRecommendedPatterns "" 5 store_nan) = [true].
Proof. repeat split; vm_compute; reflexivity. Qed.

(** C10: the result of the query does not depend on [currentContext]. *)
Theorem getRecommendedPatterns_ignores_context
    (context1 context2 : string) (topK : Z) (r : ReplaySystem) :
  getRecommendedPatterns context1 topK r = getRecommendedPatterns context2 topK r.
Proof. reflexivity. Qed.

(** ** Persistence *)



(** The case that the amended claim leaves open: on a snapshot whose
    [patterns] is an object, [loadReplays] has already assigned
    [this.replays] when [new Map] throws. It answers [false], the pattern
    table is as before, but the replay list has been replaced by the (empty)
    list of the snapshot. *)
Lemma loadReplays_partial_overwrite :
  loadReplays (Some snapshot_bad_patterns) (memory_of store_two) =
    (false, {| mem_replays := VArr [];
               mem_patterns := mem_patterns (memory_of store_two) |}) /\
  (exists s, mem_replays (memory_of store_two) = VArr [s]).
Proof. split; [reflexivity | eexists; reflexivity]. Qed.

Lemma json_number_image (x : number) :
  json_number x = true ->
  (if PrimFloat.is_finite x then VNum (if PrimFloat.is_zero x then 0%float else x)
   else VNull) = VNum x.
Proof.
  unfold json_number. intros H. apply andb_prop in H as [-> H].
  destruct (PrimFloat.is_zero x); [|reflexivity].
  cbn in H. apply FloatAxioms.Leibniz.eqb_spec in H. now subst.
Qed.

Lemma json_image_id : forall v, json_value v = true -> json_image v = v.
Proof.
  fix IH 1. intros [| |b|x|s|items|props]; cbn [json_value json_image]; intros H;
    try reflexivity; try discriminate.
  - now apply json_number_image.
  - f_equal. induction items as [|a items IHl]; [reflexivity|].
    cbn [forallb map] in *. apply andb_prop in H as [Ha Hl].
    rewrite (IH a Ha). f_equal. now apply IHl.
  - f_equal. induction props as [|[k a] props IHl]; [reflexivity|].
    apply andb_prop in H as [Ha Hl].
    rewrite (IHl Hl). rewrite (IH a Ha).
    destruct a; try reflexivity. discriminate.
Qed.

Lemma forallb_map_eq {A B : Type} (f : B -> bool) (g : A -> B) (h : A -> bool)
    (l : list A) :
  (forall a, f (g a) = h a) -> forallb f (map g l) = forallb h l.
Proof.
  intros H. induction l as [|a l IH]; [reflexivity|].
  cbn [map forallb]. now rewrite H, IH.
Qed.

Lemma json_value_object (ps : list (string * jsvalue)) :
  json_value (VObj ps) = forallb (fun p => json_value (snd p)) ps.
Proof.
  induction ps as [|[k x] ps IH]; [reflexivity|].
  cbn [forallb snd]. rewrite <- IH. reflexivity.
Qed.

Lemma json_value_action (a : Action) :
  json_value (value_of_action a) = json_action a.
Proof. unfold value_of_action. rewrite json_value_object. reflexivity. Qed.

Lemma json_value_session (s : Session) :
  json_value (value_of_session s) = json_session s.
Proof.
  unfold value_of_session, json_session. cbn [json_value].
  rewrite (forallb_map_eq _ _ json_action) by apply json_value_action.
  rewrite (forallb_map_eq _ _ (fun _ => true)) by reflexivity.
  assert (Hp : forallb (fun _ : string => true) (session_patterns s) = true)
    by now apply forallb_forall.
  rewrite Hp, !andb_true_r. cbn [andb]. apply andb_comm.
Qed.

Lemma json_value_data (d : PatternData) :
  json_value (value_of_data d) = json_data d.
Proof. unfold value_of_data, json_data. cbn [json_value]. now rewrite andb_true_r. Qed.

(** Nothing of a well-formed store is lost in the file. *)
Lemma json_image_snapshot (now : string) (r : ReplaySystem) :
  json_store r = true ->
  json_image (snapshot now (memory_of r)) = snapshot now (memory_of r).
Proof.
  intros H. apply json_image_id.
  unfold json_store in H. apply andb_prop in H as [Hr Hp].
  unfold snapshot, memory_of. cbn [json_value mem_replays mem_patterns].
  rewrite (forallb_map_eq _ _ json_session) by apply json_value_session.
  rewrite Hr. cbn [andb]. rewrite andb_true_r.
  rewrite map_map.
  rewrite (forallb_map_eq _ _ (fun e => json_data (snd e))); [exact Hp|].
  intros e. cbn [json_value forallb fst snd].
  now rewrite json_value_data, andb_true_r.
Qed.

Lemma map_set_fresh {K V : Type} (same : K -> K -> bool) (k : K) (v : V)
    (m : list (K * V)) :
  map_has same k m = false -> map_set same k v m = (m ++ [(k, v)])%list.
Proof.
  induction m as [|[k' v'] m IH]; cbn [map_has map_set app]; [reflexivity|].
  intros H. apply orb_false_iff in H as [-> H]. now rewrite IH.
Qed.

Lemma map_has_memory (k : string) (tbl : PatternTable) :
  map_has same_value_zero (VStr k)
          (map (fun e => (VStr (fst e), value_of_data (snd e))) tbl) =
  map_has String.eqb k tbl.
Proof.
  induction tbl as [|[k' d] tbl IH]; [reflexivity|].
  cbn [map map_has fst snd same_value_zero]. now rewrite IH.
Qed.

(** [new Map] on the entries of a table rebuilds the table. *)
Lemma map_of_entries_memory (tbl : PatternTable) : forall done : PatternTable,
  NoDup (map fst (done ++ tbl)) ->
  map_of_entries
    (map (fun e => VArr [fst e; snd e])
         (map (fun e => (VStr (fst e), value_of_data (snd e))) tbl))
    (map (fun e => (VStr (fst e), value_of_data (snd e))) done) =
  Normal (map (fun e => (VStr (fst e), value_of_data (snd e))) (done ++ tbl)).
Proof.
  induction tbl as [|[k d] tbl IH]; intros done Hnd.
  - now rewrite app_nil_r.
  - cbn [map map_of_entries entry_of nth fst snd map_key].
    rewrite map_set_fresh.
    + change [(VStr k, value_of_data d)]
        with (map (fun e : string * PatternData => (VStr (fst e), value_of_data (snd e)))
                  [(k, d)]).
      rewrite <- map_app, IH; rewrite <- app_assoc; [reflexivity | exact Hnd].
    + rewrite map_has_memory. apply not_true_is_false. intros Hin.
      apply map_has_In in Hin. rewrite map_app in Hnd. cbn [map fst] in Hnd.
      apply NoDup_remove_2 in Hnd. apply Hnd, in_or_app. now left.
Qed.

(** C8, as amended: for a replay system made of values of JSON, that is,
    whose numbers (success rates, counts, totals, numbers in action fields)
    are finite and not the negative zero and whose action fields hold
    nothing but [null], booleans, strings, such numbers, and arrays and plain
    objects of such values, the file that [saveReplays] writes, loaded by
    [loadReplays] into any memory, is accepted and leaves in memory the
    session list and the pattern table of the system that was saved. (The
    configuration is not in the file and is not touched by the load. The
    keys of the table are distinct, as the keys of a [Map] are.) *)
Theorem save_load_round_trip (now : string) (r : ReplaySystem) (m : Memory) :
  NoDup (map fst (patterns r)) ->
  json_store r = true ->
  exists file,
    saveReplays true now (memory_of r) = Some file /\
    loadReplays (Some file) m = (true, memory_of r).
Proof.
  intros Hnd Hjson. eexists. split; [reflexivity|].
  rewrite json_image_snapshot by assumption.
  unfold loadReplays, snapshot.
  cbn [member lookup_prop String.eqb Ascii.eqb Bool.eqb or_else truthy mem_replays mem_patterns].
  unfold memory_of at 1 2. cbn [mem_replays mem_patterns new_Map].
  pose proof (map_of_entries_memory (patterns r) [] Hnd) as Hmap.
  cbn [map app] in Hmap. rewrite Hmap. reflexivity.
Qed.

(** The theorem at the system with two learned signatures. *)
Lemma save_load_round_trip_witness :
  NoDup (map fst (patterns store_two)) /\
  json_store store_two = true /\
  exists file,
    saveReplays true "t9" (memory_of store_two) = Some file /\
    loadReplays (Some file) empty_memory = (true, memory_of store_two).
Proof.
  assert (Hnd : NoDup (map fst (patterns store_two))).
  { vm_compute. repeat constructor; cbn; intuition discriminate. }
  split; [exact Hnd|]. split; [reflexivity|].
  apply (save_load_round_trip "t9" store_two empty_memory); [exact Hnd | reflexivity].
Defined.

(** C8 as stated fails on a store that holds a number JSON cannot write: a
    session recorded with success rate NaN is saved with [successRate: null],
    and the load, which succeeds, leaves [null] where NaN was; the same
    happens to a NaN inside a field of an action. *)
Lemma save_load_loses_nan :
  (exists file,
     saveReplays true "t9" (memory_of store_nan_rate) = Some file /\
     fst (loadReplays (Some file) empty_memory) = true /\
     mem_replays (memory_of store_nan_rate) =
       VArr [VObj [("id", VStr "0a"); ("gameType", VStr "Roblox");
                   ("timestamp", VStr "t0"); ("actions", VArr []);
                   ("successRate", VNum nan); ("patterns", VArr [])]] /\
     mem_replays (snd (loadReplays (Some file) empty_memory)) =
       VArr [VObj [("id", VStr "0a"); ("gameType", VStr "Roblox");
                   ("timestamp", VStr "t0"); ("actions", VArr []);
                   ("successRate", VNull); ("patterns", VArr [])]] /\
     snd (loadReplays (Some file) empty_memory) <> memory_of store_nan_rate) /\
  (exists file,
     saveReplays true "t9" (memory_of store_nan_field) = Some file /\
     fst (loadReplays (Some file) empty_memory) = true /\
     mem_replays (memory_of store_nan_field) =
       VArr [VObj [("id", VStr "0a"); ("gameType", VStr "Roblox");
                   ("timestamp", VStr "t0");
                   ("actions", VArr [VObj [("type", VStr "mouse_move");
                                           ("x", VNum nan)]]);
                   ("successRate", VNum 0.9%float); ("patterns", VArr [])]] /\
     mem_replays (snd (loadReplays (Some file) empty_memory)) =
       VArr [VObj [("id", VStr "0a"); ("gameType", VStr "Roblox");
                   ("timestamp", VStr "t0");
                   ("actions", VArr [VObj [("type", VStr "mouse_move");
                                           ("x", VNull)]]);
                   ("successRate", VNum 0.9%float); ("patterns", VArr [])]]).
Proof.
  split; eexists; (split; [reflexivity|]); repeat split.
  vm_compute. discriminate.
Qed.

(** The table stays a [Map] (no key twice) under the operations. *)
Lemma extractPatterns_NoDup (acts : list Action) (tbl : PatternTable) :
  NoDup (map fst tbl) -> NoDup (map fst (snd (extractPatterns acts tbl))).
Proof.
  rewrite extractPatterns_snd. generalize (fst (extractPatterns acts tbl)).
  intros pats. revert tbl. induction pats as [|p pats IH]; intros tbl H; [exact H|].
  cbn [fold_left]. apply IH. now apply touch_keys_NoDup.
Qed.

Lemma record_NoDup (r : ReplaySystem) (x : Recording) :
  NoDup (map fst (patterns r)) -> NoDup (map fst (patterns (record r x))).
Proof.
  intros H. destruct (record_spec r x) as (_ & -> & _).
  now apply extractPatterns_NoDup.
Qed.

Lemma learn_NoDup (threshold : number) (r : ReplaySystem) :
  NoDup (map fst (patterns r)) ->
  NoDup (map fst (patterns (snd (learnFromSuccessfulReplays threshold r)))).
Proof.
  intros H. unfold learnFromSuccessfulReplays.
  destruct (learn_replays_fold (filter (qualifies threshold) (replays r)) (patterns r) 0)
    as (_ & Hk & _).
  destruct (fold_left learn_replay _ (patterns r, 0)) as [tbl learned].
  cbn [fst snd patterns] in *. now rewrite Hk.
Qed.

(** ** Dispatch *)

Lemma execution_handled (a : string) (p : promise jsvalue) : handled (execution a p).
Proof. now destruct p. Qed.

Lemma dispatch_handled (ags : list (string * AgentData))
    (assignments : list (string * Subtask)) :
  forall ps, dispatch ags assignments = Normal ps -> Forall handled ps.
Proof.
  induction assignments as [|[a subtask] rest IH]; intros ps; cbn [dispatch].
  - intros [= <-]. constructor.
  - destruct (map_get String.eqb a ags) as [agent|]; [|apply IH].
    destruct (instance agent subtask) as [p|e]; [|discriminate].
    destruct (dispatch ags rest) as [ps'|e]; [|discriminate].
    intros [= <-]. constructor; [apply execution_handled | now apply IH].
Qed.

Lemma allSettled_handled (ps : list (promise TaskResult)) :
  Forall handled ps ->
  forall rs, allSettled ps = Some rs -> Forall (fun r => exists v, r = Fulfilled v) rs.
Proof.
  induction 1 as [|p ps Hp _ IH]; intros rs; cbn [allSettled].
  - intros [= <-]. constructor.
  - destruct p as [v|e|]; try contradiction; try discriminate.
    destruct (allSettled ps) as [rs'|]; [|discriminate].
    intros [= <-]. constructor; [now exists v | now apply IH].
Qed.

Lemma map_completion_total {A B : Type} (f : A -> completion B) (g : A -> B)
    (l : list A) :
  Forall (fun a => f a = Normal (g a)) l -> map_completion f l = Normal (map g l).
Proof.
  induction 1 as [|a l Ha _ IH]; cbn [map_completion map]; [reflexivity|].
  now rewrite Ha, IH.
Qed.

(** On fulfilled results [aggregateResults] does not throw. *)
Lemma aggregateResults_fulfilled (rs : list Settled) :
  Forall (fun r => exists v, r = Fulfilled v) rs ->
  exists s, aggregateResults rs = Normal s /\
            errors s = map (fun r => match r with
                                     | Fulfilled v => or_else (error v) VUndefined
                                     | Rejected e => e
                                     end) (filter is_failed rs).
Proof.
  intros H. unfold aggregateResults.
  rewrite (map_completion_total result_entry
             (fun r => match r with Fulfilled v => result v | Rejected e => e end)).
  2:{ apply Forall_forall. intros r Hr. apply filter_In in Hr as [Hr _].
      rewrite Forall_forall in H. now destruct (H r Hr) as [v ->]. }
  rewrite (map_completion_total error_entry
             (fun r => match r with
                       | Fulfilled v => or_else (error v) VUndefined
                       | Rejected e => e
                       end)).
  2:{ apply Forall_forall. intros r Hr. apply filter_In in Hr as [Hr _].
      rewrite Forall_forall in H. now destruct (H r Hr) as [v ->]. }
  eexists. split; reflexivity.
Qed.

Lemma aggregateResults_entries (rs : list Settled) :
  Forall (fun r => exists v, r = Fulfilled v) rs ->
  exists s, aggregateResults rs = Normal s /\
            data s = map (fun r => match r with
                                   | Fulfilled v => result v
                                   | Rejected e => e
                                   end) (filter is_successful rs) /\
            errors s = map (fun r => match r with
                                     | Fulfilled v =>
                                         if truthy (error v) then error v else VUndefined
                                     | Rejected e => e
                                     end) (filter is_failed rs).
Proof.
  intros H. unfold aggregateResults.
  rewrite (map_completion_total result_entry
             (fun r => match r with Fulfilled v => result v | Rejected e => e end)).
  2:{ apply Forall_forall. intros r Hr. apply filter_In in Hr as [Hr _].
      rewrite Forall_forall in H. now destruct (H r Hr) as [v ->]. }
  rewrite (map_completion_total error_entry
             (fun r => match r with
                       | Fulfilled v => if truthy (error v) then error v else VUndefined
                       | Rejected e => e
                       end)).
  2:{ apply Forall_forall. intros r Hr. apply filter_In in Hr as [Hr _].
      rewrite Forall_forall in H. now destruct (H r Hr) as [v ->]. }
  eexists. repeat split.
Qed.

(** The result of every assignment is what its promise is converted to, in
    the order of the assignments (an assigned agent is a registered one). *)
Lemma dispatch_converted (ags : list (string * AgentData))
    (assignments : list (string * Subtask)) :
  (forall a s, In (a, s) assignments -> map_has String.eqb a ags = true) ->
  forall ps rs, dispatch ags assignments = Normal ps -> allSettled ps = Some rs ->
    Forall2 (fun assignment r =>
               exists d p, map_get String.eqb (fst assignment) ags = Some d /\
                           instance d (snd assignment) = Normal p /\
                           converted (fst assignment) p = Some r)
            assignments rs.
Proof.
  induction assignments as [|[a subtask] rest IH]; intros Hin ps rs; cbn [dispatch].
  - intros [= <-] [= <-]. constructor.
  - pose proof (Hin a subtask (or_introl eq_refl)) as Ha.
    rewrite map_has_get in Ha.
    destruct (map_get String.eqb a ags) as [agent|] eqn:Hget; [|discriminate].
    destruct (instance agent subtask) as [p|e] eqn:Hp; [|discriminate].
    destruct (dispatch ags rest) as [ps'|e] eqn:Hd; [|discriminate].
    intros [= <-]. cbn [allSettled].
    destruct p as [v|e|]; cbn [execution then_ catch_];
      destruct (allSettled ps') as [rs'|] eqn:Hs; try discriminate; intros [= <-];
      (constructor;
       [ cbn [fst snd]; eexists; eexists;
         (split; [exact Hget | split; [exact Hp | reflexivity]])
       | apply (IH (fun b s H => Hin b s (or_intror H)) ps' rs' eq_refl Hs) ]).
Qed.

Lemma allocation_registered (c : MultiAgentCoordinator) (subtasks : list Subtask) :
  forall a s, In (a, s) (allocateSubtasks c subtasks) ->
              map_has String.eqb a (agents c) = true.
Proof.
  assert (Hin : incl (map fst (allocateSubtasks c subtasks))
                     (map fst (readyAgents c))).
  { unfold allocateSubtasks.
    assert (H : forall acc,
               NoDup (map fst (fst acc)) ->
               incl (map fst (fst acc)) (map fst (readyAgents c)) ->
               incl (map fst (fst (fold_left (allocate_step (readyAgents c)) subtasks acc)))
                    (map fst (readyAgents c))).
    { induction subtasks as [|t ts IH]; intros acc Hnd Hi; [exact Hi|].
      cbn [fold_left].
      destruct (allocate_step_keys (readyAgents c) acc t Hnd Hi) as [Hnd' Hi'].
      now apply IH. }
    apply (H ([], 0)); [constructor | intros x []]. }
  intros a s Has. apply map_has_In.
  assert (Ha : In a (map fst (readyAgents c))).
  { apply Hin. change a with (fst (a, s)). now apply in_map. }
  apply in_map_iff in Ha. destruct Ha as [[b d] [<- Hb]].
  unfold readyAgents in Hb. apply (Permutation_in _ (sort_perm _ _)) in Hb.
  apply filter_In in Hb as [Hb _]. change b with (fst (b, d)). now apply in_map.
Qed.

(** C9, as amended: the promise pushed for every assignment has its rejection
    turned into a fulfilled failure. For every run of [distributeTask] whose
    promises settle, the result of each assignment, in order, is what the
    promise that [execute] returned is converted to: a fulfilled success with
    the value when it resolved, a fulfilled failure with the fault as its
    error when it rejected. So every element handed to [aggregateResults]
    has status [fulfilled] and no reason; the [rejected] disjunct never
    holds, the aggregation does not throw, the data are the values of the
    successes, and an error entry is the captured error, or [undefined] when
    that error is falsy: only then is the operand [r.reason] evaluated. *)
Theorem distributeTask_results_fulfilled
    (c : MultiAgentCoordinator) (subtasks : list Subtask) (rs : list Settled) :
  settledResults c subtasks = Returned rs ->
  (exists ps, dispatch (agents c) (allocateSubtasks c subtasks) = Normal ps /\
              Forall handled ps /\ allSettled ps = Some rs) /\
  Forall2 (fun assignment r =>
             exists d p, map_get String.eqb (fst assignment) (agents c) = Some d /\
                         instance d (snd assignment) = Normal p /\
                         converted (fst assignment) p = Some r)
          (allocateSubtasks c subtasks) rs /\
  Forall (fun r => settled_status r = "fulfilled" /\ reason r = VUndefined) rs /\
  Forall (fun r => exists v, r = Fulfilled v /\ is_failed r = negb (success v) /\
                             reads_reason r = negb (truthy (error v)) /\
                             error_entry r =
                               Normal (if truthy (error v) then error v else VUndefined)) rs /\
  (exists s, aggregateResults rs = Normal s /\
             data s = map (fun r => match r with
                                    | Fulfilled v => result v
                                    | Rejected e => e
                                    end) (filter is_successful rs) /\
             errors s = map (fun r => match r with
                                      | Fulfilled v =>
                                          if truthy (error v) then error v else VUndefined
                                      | Rejected e => e
                                      end) (filter is_failed rs) /\
             forall taskKey now task,
               snd (distributeTask taskKey now task subtasks c) = Returned s).
Proof.
  unfold distributeTask, settledResults.
  destruct (dispatch (agents c) (allocateSubtasks c subtasks)) as [ps|e] eqn:Hd;
    [|discriminate].
  destruct (allSettled ps) as [rs'|] eqn:Hs; [|discriminate].
  intros [= ->].
  pose proof (dispatch_handled _ _ ps Hd) as Hps.
  pose proof (allSettled_handled ps Hps rs Hs) as Hall.
  split; [exists ps; auto|].
  split; [exact (dispatch_converted _ _ (allocation_registered c subtasks) ps rs Hd Hs)|].
  repeat split.
  - eapply Forall_impl; [|exact Hall]. now intros r [v ->].
  - eapply Forall_impl; [|exact Hall]. intros r [v ->]. exists v. repeat split.
  - destruct (aggregateResults_entries rs Hall) as (s & Hs' & Hdata & Herr).
    exists s. repeat split; try assumption. intros. now rewrite Hs'.
Qed.

(** The theorem at an agent A that resolves and an agent B that rejects with
    an error, with three subtasks: B's fault is a fulfilled failure that
    carries the error, and the error is the one reported. *)
Lemma distributeTask_results_fulfilled_witness :
  settledResults coordinator_mixed three_subtasks =
    Returned [Fulfilled {| agentId := "A"; success := true;
                           result := VNull; error := VUndefined |};
              Fulfilled {| agentId := "B"; success := false;
                           result := VUndefined; error := VStr "boom" |}] /\
  (exists s,
     snd (distributeTask "key" 0%float "task" three_subtasks coordinator_mixed)
       = Returned s /\
     data s = [VNull] /\ errors s = [VStr "boom"]).
Proof.
  split; [reflexivity|].
  destruct (distributeTask_results_fulfilled coordinator_mixed three_subtasks _ eq_refl)
    as (_ & _ & _ & _ & s & _ & Hdata & Herr & Hret).
  exists s. split; [apply Hret|]. split; [exact Hdata | exact Herr].
Defined.

(** C9 as stated fails on the fallback: an agent that rejects with [null]
    gives a fulfilled failure whose error is falsy, so [aggregateResults]
    does evaluate [r.reason], and reports [undefined] in place of [null]. *)
Lemma rejection_with_null_reads_reason :
  settledResults coordinator_rejecting three_subtasks =
    Returned [Fulfilled {| agentId := "A"; success := false;
                           result := VUndefined; error := VNull |}] /\
  map reads_reason
      [Fulfilled {| agentId := "A"; success := false;
                    result := VUndefined; error := VNull |}] = [true] /\
  (exists s, snd (distributeTask "key" 0%float "task" three_subtasks
                    coordinator_rejecting) = Returned s /\
             errors s = [VUndefined]).
Proof. repeat split. eexists. split; reflexivity. Qed.

(** * Further properties of the coordinator *)

(** ** Registration *)

(** X1: [registerAgent] is an insertion in the registry: the agent is found
    afterwards, ready, with no task completed and success rate 1; the other
    agents are as they were; an id already registered keeps its place in the
    registry, its record replaced by the new one (status and metrics reset),
    and a new id comes last; the tasks are untouched. *)
Theorem registerAgent_lookup (a : string) (agent : Agent) (c : MultiAgentCoordinator) :
  map_get String.eqb a (agents (registerAgent a agent c)) = Some (registered agent) /\
  (forall b, b <> a ->
     map_get String.eqb b (agents (registerAgent a agent c)) =
     map_get String.eqb b (agents c)) /\
  map fst (agents (registerAgent a agent c)) =
    (if map_has String.eqb a (agents c) then map fst (agents c)
     else map fst (agents c) ++ [a])%list /\
  tasks (registerAgent a agent c) = tasks c.
Proof.
  unfold registerAgent. cbn [agents tasks]. repeat split.
  - rewrite map_get_set. now rewrite String.eqb_refl.
  - intros b Hb. rewrite map_get_set.
    destruct (String.eqb_spec a b); [congruence | reflexivity].
  - apply map_set_keys.
Qed.

(** ** Allocation *)

Lemma map_set_length {V : Type} (k : string) (v : V) (m : list (string * V)) :
  length (map_set String.eqb k v m) <= S (length m).
Proof.
  rewrite <- (length_map fst), map_set_keys.
  destruct (map_has String.eqb k m); rewrite ?length_app, length_map; simpl; lia.
Qed.

Lemma map_set_In {V : Type} (k : string) (v : V) (m : list (string * V))
    (a : string) (s : V) :
  In (a, s) (map_set String.eqb k v m) -> (a = k /\ s = v) \/ In (a, s) m.
Proof.
  induction m as [|[k' v'] m IH]; simpl.
  - intros [E|[]]. inversion E. now left.
  - destruct (String.eqb_spec k' k) as [->|Hk]; simpl.
    + intros [E|H]; [inversion E; now left | right; now right].
    + intros [E|H]; [right; now left|].
      destruct (IH H) as [?|?]; [now left | right; now right].
Qed.

Lemma allocate_fold_within (ready : list (string * AgentData))
    (subtasks : list Subtask) : forall acc,
  length (fst (fold_left (allocate_step ready) subtasks acc))
    <= length (fst acc) + length subtasks /\
  forall a s, In (a, s) (fst (fold_left (allocate_step ready) subtasks acc)) ->
              In (a, s) (fst acc) \/ (In s subtasks /\ In a (map fst ready)).
Proof.
  induction subtasks as [|t ts IH]; intros [allocations agentIndex].
  - cbn. split; [lia | auto].
  - cbn [fold_left]. specialize (IH (allocate_step ready (allocations, agentIndex) t)).
    destruct IH as [Hlen Hin].
    assert (Hstep :
      length (fst (allocate_step ready (allocations, agentIndex) t)) <= S (length allocations) /\
      forall a s, In (a, s) (fst (allocate_step ready (allocations, agentIndex) t)) ->
                  In (a, s) allocations \/ (s = t /\ In a (map fst ready))).
    { unfold allocate_step.
      destruct (length ready =? 0)%nat; [cbn; split; [lia | auto]|].
      destruct (nth_error ready (agentIndex mod length ready)) as [[b d]|] eqn:E;
        [|cbn; split; [lia | auto]].
      cbn [fst]. split; [apply map_set_length|].
      intros a s H. apply map_set_In in H. destruct H as [[-> ->]|H]; [right | now left].
      split; [reflexivity|]. apply nth_error_In in E.
      change b with (fst (b, d)). now apply in_map. }
    destruct Hstep as [Hlen1 Hin1]. cbn [fst length] in *. split; [lia|].
    intros a s H. destruct (Hin a s H) as [H1|[H1 H2]].
    + destruct (Hin1 a s H1) as [?|[-> ?]]; [now left | right; split; [now left | assumption]].
    + right. split; [now right | assumption].
Qed.

Lemma readyAgents_In (c : MultiAgentCoordinator) (a : string) :
  In a (map fst (readyAgents c)) ->
  exists d, In (a, d) (agents c) /\ status d = "ready".
Proof.
  intros H. apply in_map_iff in H. destruct H as [[b d] [<- H]].
  exists d. unfold readyAgents in H.
  apply (Permutation_in _ (sort_perm _ _)) in H.
  apply filter_In in H. destruct H as [H E]. cbn in E.
  apply String.eqb_eq in E. now split.
Qed.

(** X2: What [allocateSubtasks] returns, for every coordinator and every list of
    subtasks: no agent has two assignments, there are no more assignments
    than ready agents and no more than subtasks, and each assignment gives
    one of the subtasks to a registered agent whose status is ready. *)
Theorem allocateSubtasks_assigns_ready (c : MultiAgentCoordinator)
    (subtasks : list Subtask) :
  NoDup (map fst (allocateSubtasks c subtasks)) /\
  length (allocateSubtasks c subtasks) <= length (readyAgents c) /\
  length (allocateSubtasks c subtasks) <= length subtasks /\
  forall a s, In (a, s) (allocateSubtasks c subtasks) ->
    In s subtasks /\ exists d, In (a, d) (agents c) /\ status d = "ready".
Proof.
  destruct (allocateSubtasks_one_per_agent c subtasks) as [Hnd Hlen].
  destruct (allocate_fold_within (readyAgents c) subtasks ([], 0)) as [Hlen' Hin].
  split; [exact Hnd|]. split; [exact Hlen|]. split; [exact Hlen'|].
  intros a s H. destruct (Hin a s H) as [[]|[Hs Ha]].
  split; [exact Hs | now apply readyAgents_In].
Qed.

Lemma filter_keys_NoDup {V : Type} (f : string * V -> bool) (l : list (string * V)) :
  NoDup (map fst l) -> NoDup (map fst (filter f l)).
Proof.
  induction l as [|[k v] l IH]; simpl; [auto|].
  intros H. inversion H as [|? ? Hk Hl]; subst.
  destruct (f (k, v)); simpl; [|now apply IH].
  constructor; [|now apply IH].
  intros Hin. apply Hk. apply in_map_iff in Hin. destruct Hin as [e [He Hin]].
  apply filter_In in Hin. apply in_map_iff. exists e. tauto.
Qed.

Lemma readyAgents_NoDup (c : MultiAgentCoordinator) :
  NoDup (map fst (agents c)) -> NoDup (map fst (readyAgents c)).
Proof.
  intros H. unfold readyAgents.
  eapply Permutation_NoDup.
  - apply Permutation_map. apply Permutation_sym. apply sort_perm.
  - now apply filter_keys_NoDup.
Qed.

Lemma firstn_S_nth {A : Type} (l : list A) : forall k x,
  nth_error l k = Some x -> firstn (S k) l = (firstn k l ++ [x])%list.
Proof.
  induction l as [|y l IH]; intros [|k] x H; try discriminate.
  - cbn in H. inversion H. reflexivity.
  - cbn in H. cbn [firstn app]. f_equal. now apply IH.
Qed.

Lemma NoDup_not_before {A : Type} (l : list A) (k : nat) (x : A) :
  NoDup l -> nth_error l k = Some x -> ~ In x (firstn k l).
Proof.
  intros Hnd Hk Hin. apply In_nth_error in Hin. destruct Hin as [j Hj].
  assert (Hjk : j < k).
  { assert (j < length (firstn k l)) by (apply nth_error_Some; congruence).
    rewrite length_firstn in H. lia. }
  rewrite nth_error_firstn in Hj.
  destruct (Nat.ltb_spec j k); [|lia].
  assert (j = k); [|lia].
  apply (proj1 (NoDup_nth_error l) Hnd).
  - apply nth_error_Some. congruence.
  - congruence.
Qed.

Lemma mod_apart (i k n : nat) : i < k -> k < i + n -> i mod n <> k mod n.
Proof.
  intros H1 H2 E.
  pose proof (Nat.div_mod_eq i n) as Hi. pose proof (Nat.div_mod_eq k n) as Hk.
  rewrite E in Hi.
  assert (Hle : i / n <= k / n) by (apply Nat.Div0.div_le_mono; lia).
  assert (k - i = n * (k / n - i / n)) by nia.
  destruct (k / n - i / n) as [|q] eqn:Q; nia.
Qed.

(** The loop of [allocateSubtasks] after the subtasks [done]: the keys are
    the first agents of the ranking, and an agent holds the subtask of the
    last round. *)
Lemma allocate_fold_round (ready : list (string * AgentData)) :
  NoDup (map fst ready) -> 0 < length ready ->
  forall (rest done : list Subtask) (acc : list (string * Subtask)),
    map fst acc = firstn (length done) (map fst ready) ->
    (forall i a, i < length done -> length done <= i + length ready ->
       nth_error (map fst ready) (i mod length ready) = Some a ->
       map_get String.eqb a acc = nth_error done i) ->
    map fst (fst (fold_left (allocate_step ready) rest (acc, length done))) =
      firstn (length (done ++ rest)) (map fst ready) /\
    (forall i a, i < length (done ++ rest) ->
       length (done ++ rest) <= i + length ready ->
       nth_error (map fst ready) (i mod length ready) = Some a ->
       map_get String.eqb a (fst (fold_left (allocate_step ready) rest (acc, length done))) =
       nth_error (done ++ rest) i).
Proof.
  intros Hnd Hpos. induction rest as [|t ts IH]; intros done acc Hkeys Hvals.
  - cbn [fold_left fst]. rewrite app_nil_r. now split.
  - assert (Hlt : length done mod length ready < length ready)
      by (apply Nat.mod_upper_bound; lia).
    destruct (nth_error ready (length done mod length ready)) as [[b d]|] eqn:Eb;
      [|apply nth_error_None in Eb; lia].
    assert (Hstep : allocate_step ready (acc, length done) t =
                    (map_set String.eqb b t acc, length (done ++ [t]))).
    { unfold allocate_step.
      destruct (Nat.eqb_spec (length ready) 0) as [E|_]; [lia|].
      rewrite Eb, length_app. cbn [length]. f_equal. lia. }
    assert (Eid : nth_error (map fst ready) (length done mod length ready) = Some b)
      by (rewrite nth_error_map, Eb; reflexivity).
    cbn [fold_left]. rewrite Hstep.
    replace (done ++ t :: ts)%list with ((done ++ [t]) ++ ts)%list
      by (rewrite <- app_assoc; reflexivity).
    apply IH.
    + rewrite map_set_keys, Hkeys, length_app. cbn [length].
      replace (length done + 1) with (S (length done)) by lia.
      destruct (Nat.lt_ge_cases (length done) (length ready)) as [Hk|Hk].
      * rewrite Nat.mod_small in Eid by assumption.
        assert (Hfresh : map_has String.eqb b acc = false).
        { destruct (map_has String.eqb b acc) eqn:Hb; [|reflexivity].
          apply map_has_In in Hb. rewrite Hkeys in Hb.
          now apply (NoDup_not_before _ _ _ Hnd Eid) in Hb. }
        rewrite Hfresh. symmetry. now apply firstn_S_nth.
      * assert (Hin : map_has String.eqb b acc = true).
        { apply map_has_In. rewrite Hkeys, firstn_all2 by (rewrite length_map; lia).
          now apply nth_error_In in Eid. }
        rewrite Hin, !firstn_all2 by (rewrite length_map; lia). reflexivity.
    + intros i a Hi Hround Ha. rewrite length_app in Hi, Hround. cbn [length] in Hi, Hround.
      rewrite map_get_set.
      destruct (Nat.eq_dec i (length done)) as [->|Hne].
      * assert (a = b) by congruence. subst a. rewrite String.eqb_refl.
        rewrite nth_error_app2, Nat.sub_diag by lia. reflexivity.
      * destruct (String.eqb_spec b a) as [->|Hab].
        -- exfalso. apply (mod_apart i (length done) (length ready)); [lia | lia |].
           apply (proj1 (NoDup_nth_error (map fst ready)) Hnd).
           ++ rewrite length_map. apply Nat.mod_upper_bound. lia.
           ++ congruence.
        -- rewrite nth_error_app1 by lia. apply Hvals; [lia | lia | assumption].
Qed.

(** X3: Which subtasks [allocateSubtasks] keeps (the agents of a [Map] have
    distinct ids): with [M] subtasks and [N] ready agents, the agents that
    receive a subtask are the first [min M N] of the ranking, in that order,
    and the agent of rank [i mod N] holds subtask [i] for the last [N]
    indices [i] only. So when [M <= N] the agent of rank [i] holds subtask
    [i], and when [M > N] the first [M - N] subtasks are assigned to nobody. *)
Theorem allocateSubtasks_round_robin (c : MultiAgentCoordinator)
    (subtasks : list Subtask) :
  NoDup (map fst (agents c)) ->
  map fst (allocateSubtasks c subtasks) =
    firstn (length subtasks) (map fst (readyAgents c)) /\
  (forall i a, i < length subtasks ->
     length subtasks <= i + length (readyAgents c) ->
     nth_error (map fst (readyAgents c)) (i mod length (readyAgents c)) = Some a ->
     map_get String.eqb a (allocateSubtasks c subtasks) = nth_error subtasks i).
Proof.
  intros Hnd. apply readyAgents_NoDup in Hnd. unfold allocateSubtasks.
  destruct (Nat.eq_dec (length (readyAgents c)) 0) as [E|E].
  - assert (Hfold : forall acc,
              fold_left (allocate_step (readyAgents c)) subtasks acc = acc).
    { induction subtasks as [|t ts IH]; intros [al ix]; [reflexivity|].
      cbn [fold_left]. unfold allocate_step at 2. rewrite E. cbn. apply IH. }
    rewrite Hfold. cbn [fst map]. split.
    + destruct (readyAgents c); [now rewrite firstn_nil | discriminate].
    + intros i a Hi Hround. lia.
  - apply (allocate_fold_round (readyAgents c) Hnd ltac:(lia) subtasks [] []).
    + reflexivity.
    + intros i a Hi. cbn in Hi. lia.
Qed.

Lemma allocateSubtasks_round_robin_witness :
  NoDup (map fst (agents coordinator_AB)) /\
  map fst (allocateSubtasks coordinator_AB three_subtasks) = ["A"; "B"] /\
  map_get String.eqb "A" (allocateSubtasks coordinator_AB three_subtasks)
    = Some (VStr "s2").
Proof.
  assert (Hnd : NoDup (map fst (agents coordinator_AB))).
  { cbn. repeat constructor; cbn; intuition discriminate. }
  split; [exact Hnd|].
  destruct (allocateSubtasks_round_robin coordinator_AB three_subtasks Hnd) as [Hk Hv].
  split; [exact Hk|].
  apply (Hv 2 "A"); vm_compute; [lia | lia | reflexivity].
Defined.

(** ** Aggregation *)

Lemma map_completion_length {A B : Type} (f : A -> completion B) (l : list A) :
  forall bs, map_completion f l = Normal bs -> length bs = length l.
Proof.
  induction l as [|a l IH]; intros bs; cbn [map_completion].
  - intros [= <-]. reflexivity.
  - destruct (f a); [|discriminate].
    destruct (map_completion f l) as [bs'|]; [|discriminate].
    intros [= <-]. cbn. f_equal. now apply IH.
Qed.

Lemma filter_failed_length (rs : list Settled) :
  length (filter is_successful rs) + length (filter is_failed rs) = length rs.
Proof.
  induction rs as [|[v|e] rs IH]; cbn; [reflexivity | | lia].
  destruct (success v); cbn; lia.
Qed.

Lemma aggregateResults_lengths (rs : list Settled) (s : TaskSummary) :
  aggregateResults rs = Normal s ->
  totalTasks s = length rs /\
  successful s + failed s = length rs /\
  length (data s) = successful s /\
  length (errors s) = failed s.
Proof.
  unfold aggregateResults.
  destruct (map_completion result_entry _) as [d|] eqn:Hd; [|discriminate].
  destruct (map_completion error_entry _) as [errs|] eqn:He; [|discriminate].
  intros [= <-]. cbn.
  apply map_completion_length in Hd, He.
  repeat split; auto using filter_failed_length.
Qed.

(** X4: In a summary that [aggregateResults] returns every result is counted
    once, as successful or as failed, and there is one entry of [data] for
    each successful result and one entry of [errors] for each failed one. *)
Theorem aggregateResults_counts (rs : list Settled) (s : TaskSummary) :
  aggregateResults rs = Normal s ->
  totalTasks s = length rs /\
  successful s + failed s = totalTasks s /\
  length (data s) = successful s /\
  length (errors s) = failed s.
Proof.
  intros H. destruct (aggregateResults_lengths rs s H) as (H1 & H2 & H3 & H4).
  rewrite H1. auto.
Qed.

Lemma aggregateResults_counts_witness :
  exists s,
    aggregateResults two_results = Normal s /\
    successful s + failed s = totalTasks s /\
    length (errors s) = 1.
Proof.
  eexists. split; [reflexivity|].
  destruct (aggregateResults_counts two_results _ eq_refl) as (_ & H & _ & H').
  split; [exact H | exact H'].
Defined.

Lemma map_completion_throws {A B : Type} (f : A -> completion B) (e : jsvalue)
    (l : list A) :
  (forall a, In a l -> f a = Throw e \/ exists b, f a = Normal b) ->
  (exists a, In a l /\ f a = Throw e) ->
  map_completion f l = Throw e.
Proof.
  induction l as [|a l IH]; intros Hall [x [Hx Hf]]; [destruct Hx|].
  cbn [map_completion].
  destruct (Hall a (or_introl eq_refl)) as [Ha|[b Ha]]; rewrite Ha; [reflexivity|].
  rewrite IH; [reflexivity | intros; apply Hall; now right |].
  destruct Hx as [->|Hx]; [congruence|]. now exists x.
Qed.

(** X5: [aggregateResults] is written for an array that may hold rejected
    results, but it cannot process one: it throws a TypeError exactly when
    some result is rejected (computing the error entry reads [r.value.error]
    with [r.value] undefined), and returns a summary otherwise. *)
Theorem aggregateResults_throws_on_rejected (rs : list Settled) :
  ((exists e, In (Rejected e) rs) <-> aggregateResults rs = Throw TypeError) /\
  ((forall e, ~ In (Rejected e) rs) <-> exists s, aggregateResults rs = Normal s).
Proof.
  assert (Hrej : (exists e, In (Rejected e) rs) -> aggregateResults rs = Throw TypeError).
  { intros [e He]. unfold aggregateResults.
    rewrite (map_completion_total result_entry
               (fun r => match r with Fulfilled v => result v | Rejected x => x end)).
    2:{ apply Forall_forall. intros r Hr. apply filter_In in Hr as [_ Hr].
        now destruct r. }
    rewrite (map_completion_throws error_entry TypeError); [reflexivity | |].
    - intros [v|x] _; [right; eexists; reflexivity | now left].
    - exists (Rejected e). split; [|reflexivity]. apply filter_In. now split. }
  assert (Hful : (forall e, ~ In (Rejected e) rs) -> exists s, aggregateResults rs = Normal s).
  { intros H.
    destruct (aggregateResults_fulfilled rs) as (s & Hs & _); [|now exists s].
    apply Forall_forall. intros [v|e] Hr; [now exists v | now apply H in Hr]. }
  assert (Hdec : (exists e, In (Rejected e) rs) \/ (forall e, ~ In (Rejected e) rs)).
  { clear. induction rs as [|[v|e] rs [[x Hx]|IH]].
    - right. intros e [].
    - left. exists x. now right.
    - right. intros e [E|Hin]; [discriminate | now apply IH in Hin].
    - left. exists e. now left.
    - left. exists e. now left. }
  split; split; auto.
  - intros Ht. destruct Hdec as [?|Hn]; [assumption|].
    destruct (Hful Hn) as [s Hs]. congruence.
  - intros [s Hs] e He. rewrite Hrej in Hs by now exists e. discriminate.
Qed.

(** ** Distribution *)

Lemma dispatch_settled_agents (ags : list (string * AgentData))
    (assignments : list (string * Subtask)) :
  (forall a s, In (a, s) assignments -> map_has String.eqb a ags = true) ->
  forall ps rs, dispatch ags assignments = Normal ps -> allSettled ps = Some rs ->
    map settled_agent rs = map (fun e => Some (fst e)) assignments.
Proof.
  induction assignments as [|[a subtask] rest IH]; intros Hin ps rs; cbn [dispatch].
  - intros [= <-] [= <-]. reflexivity.
  - pose proof (Hin a subtask (or_introl eq_refl)) as Ha.
    rewrite map_has_get in Ha.
    destruct (map_get String.eqb a ags) as [agent|]; [|discriminate].
    destruct (instance agent subtask) as [p|e]; [|discriminate].
    destruct (dispatch ags rest) as [ps'|e] eqn:Hd; [|discriminate].
    intros [= <-]. cbn [allSettled].
    destruct (execution a p) as [v|e|] eqn:Hx; try discriminate;
      destruct (allSettled ps') as [rs'|] eqn:Hs; try discriminate; intros [= <-].
    + cbn [map settled_agent fst]. f_equal.
      * destruct p; cbn in Hx; inversion Hx; reflexivity.
      * apply (IH (fun b s H => Hin b s (or_intror H)) ps' rs' eq_refl Hs).
    + destruct p; discriminate.
Qed.

(** X6: What a call of [distributeTask] does to the coordinator and what it
    counts. The agents are never changed: no status, [tasksCompleted] or
    [successRate] is updated. When the call returns a summary, the run has
    been stored under its key with one fulfilled result per assignment of
    [allocateSubtasks], in the order of the assignments and carrying the id
    of the assigned agent, and [totalTasks] is the number of assignments (not
    of subtasks), each counted once as successful or failed. When an
    [execute] throws or a promise never settles, nothing is stored. *)
Theorem distributeTask_accounts (taskKey : string) (now : number) (task : string)
    (subtasks : list Subtask) (c : MultiAgentCoordinator) :
  agents (fst (distributeTask taskKey now task subtasks c)) = agents c /\
  match snd (distributeTask taskKey now task subtasks c) with
  | Returned s =>
      exists rs,
        tasks (fst (distributeTask taskKey now task subtasks c)) =
          map_set String.eqb taskKey
            {| taskId := task; results := rs; task_timestamp := now |} (tasks c) /\
        map settled_agent rs =
          map (fun e => Some (fst e)) (allocateSubtasks c subtasks) /\
        totalTasks s = length (allocateSubtasks c subtasks) /\
        successful s + failed s = totalTasks s
  | _ => tasks (fst (distributeTask taskKey now task subtasks c)) = tasks c
  end.
Proof.
  unfold distributeTask, settledResults.
  destruct (dispatch (agents c) (allocateSubtasks c subtasks)) as [ps|e] eqn:Hd;
    [|now split].
  destruct (allSettled ps) as [rs|] eqn:Hs; [|now split].
  pose proof (dispatch_settled_agents _ _ (allocation_registered c subtasks)
                ps rs Hd Hs) as Hids.
  pose proof (allSettled_handled ps (dispatch_handled _ _ ps Hd) rs Hs) as Hall.
  destruct (aggregateResults_fulfilled rs Hall) as (s & Hagg & _).
  rewrite Hagg. cbn [fst snd agents tasks]. split; [reflexivity|].
  exists rs. split; [reflexivity|]. split; [exact Hids|].
  destruct (aggregateResults_lengths rs s Hagg) as (H1 & H2 & _).
  rewrite H1. split; [|exact H2].
  rewrite <- (length_map settled_agent), Hids, length_map. reflexivity.
Qed.

Lemma filter_none {A : Type} (f : A -> bool) (l : list A) :
  (forall a, In a l -> f a = false) -> filter f l = [].
Proof.
  induction l as [|a l IH]; intros H; cbn; [reflexivity|].
  rewrite (H a (or_introl eq_refl)). apply IH. intros; apply H; now right.
Qed.

(** X7: With no agent whose status is ready (or no agent at all) the subtasks are
    dropped without an error: [allocateSubtasks] returns an empty [Map]
    whatever the subtasks, and [distributeTask] calls no agent, stores a run
    without results and returns a summary of zero tasks whose success rate
    is NaN. *)
Theorem distributeTask_without_ready_agent (taskKey : string) (now : number)
    (task : string) (subtasks : list Subtask) (c : MultiAgentCoordinator) :
  (forall a d, In (a, d) (agents c) -> status d <> "ready") ->
  allocateSubtasks c subtasks = [] /\
  distributeTask taskKey now task subtasks c =
    ({| agents := agents c;
        tasks := map_set String.eqb taskKey
                   {| taskId := task; results := []; task_timestamp := now |}
                   (tasks c) |},
     Returned {| totalTasks := 0; successful := 0; failed := 0;
                 summary_successRate := nan; data := []; errors := [] |}).
Proof.
  intros Hnone.
  assert (Hready : readyAgents c = []).
  { unfold readyAgents. rewrite filter_none; [reflexivity|].
    intros [a d] Hin. cbn. apply String.eqb_neq. now apply (Hnone a d). }
  assert (Halloc : allocateSubtasks c subtasks = []).
  { unfold allocateSubtasks. rewrite Hready.
    assert (Hfold : forall acc, fold_left (allocate_step []) subtasks acc = acc).
    { induction subtasks as [|t ts IH]; intros [al ix]; [reflexivity|].
      cbn [fold_left]. unfold allocate_step at 2. cbn. apply IH. }
    now rewrite Hfold. }
  split; [exact Halloc|].
  unfold distributeTask, settledResults. rewrite Halloc. reflexivity.
Qed.

Lemma distributeTask_without_ready_agent_witness :
  allocateSubtasks coordinator_busy three_subtasks = [] /\
  snd (distributeTask "key" 0%float "task" three_subtasks coordinator_busy) =
    Returned {| totalTasks := 0; successful := 0; failed := 0;
                summary_successRate := nan; data := []; errors := [] |}.
Proof.
  destruct (distributeTask_without_ready_agent "key" 0%float "task" three_subtasks
              coordinator_busy) as [H1 H2].
  - intros a d [E|[]]. inversion E. discriminate.
  - split; [exact H1 | now rewrite H2].
Defined.

(** ** Ranking of the agents *)

Lemma leb_not_nan (x y : float) :
  (x <=? y)%float = true -> PrimFloat.is_nan x = false /\ PrimFloat.is_nan y = false.
Proof.
  rewrite FloatAxioms.leb_spec. unfold SFleb. intros H.
  split; apply is_nan_spec; intros E; rewrite E in H;
    [|destruct (Prim2SF x)]; discriminate.
Qed.

Lemma leb_not_ltb (x y : float) :
  (y <=? x)%float = true -> (x <? y)%float = false.
Proof.
  rewrite FloatAxioms.leb_spec, FloatAxioms.ltb_spec. unfold SFleb, SFltb.
  rewrite (SFcompare_antisym (Prim2SF y) (Prim2SF x)).
  now destruct (SFcompare (Prim2SF y) (Prim2SF x)) as [[]|].
Qed.

(** Sorting leaves a list that is already in descending order as it is:
    elements of equal key keep their places. *)
Lemma sort_descending_id {A : Type} (key : A -> number) (l : list A) :
  StronglySorted (descending key) l ->
  sort (fun a b => (key b - key a)%float) l = l.
Proof.
  induction 1 as [|x l Hs IH Hx]; cbn [sort fold_right]; [reflexivity|].
  fold (sort (fun a b => (key b - key a)%float) l). rewrite IH.
  destruct l as [|y l]; [reflexivity|]. cbn [sort_insert].
  inversion Hx as [|? ? Hxy _]; subst. unfold descending in Hxy.
  destruct (leb_not_nan _ _ Hxy) as [Ny Nx].
  rewrite sub_sign by assumption. now rewrite leb_not_ltb.
Qed.

Lemma constant_key_descending {A : Type} (key : A -> number) (k : number) (l : list A) :
  (k <=? k)%float = true -> Forall (fun a => key a = k) l ->
  StronglySorted (descending key) l.
Proof.
  intros Hk. induction 1 as [|x l Hx Hl IH]; constructor; [assumption|].
  eapply Forall_impl; [|exact Hl]. intros y Hy. unfold descending.
  now rewrite Hx, Hy.
Qed.

Lemma map_set_Forall {V : Type} (P : string * V -> Prop) (k : string) (v : V)
    (m : list (string * V)) :
  (forall k', P (k', v)) -> Forall P m -> Forall P (map_set String.eqb k v m).
Proof.
  intros Hv. induction 1 as [|[k' v'] m Hx Hm IH]; cbn [map_set].
  - repeat constructor. apply Hv.
  - destruct (k' =? k); constructor; auto.
Qed.

Lemma filter_all {A : Type} (f : A -> bool) (l : list A) :
  Forall (fun a => f a = true) l -> filter f l = l.
Proof.
  induction 1 as [|a l Ha _ IH]; cbn; [reflexivity|]. now rewrite Ha, IH.
Qed.

Lemma built_invariant (c : MultiAgentCoordinator) :
  built c ->
  NoDup (map fst (agents c)) /\
  Forall (fun entry => exists agent, snd entry = registered agent) (agents c).
Proof.
  induction 1 as [|a agent c Hb [IH1 IH2]|taskKey now task subtasks c Hb IH].
  - split; constructor.
  - unfold registerAgent. cbn [agents]. split; [now apply map_set_NoDup|].
    apply map_set_Forall; [|assumption]. intros k. now exists agent.
  - unfold distributeTask.
    destruct (settledResults c subtasks) as [rs|e|]; try assumption.
    destruct (aggregateResults rs); assumption.
Qed.

(** X8: In a coordinator built by [registerAgent] and [distributeTask] every
    agent is, at any time, as [registerAgent] stored it: ready, with no task
    completed and success rate 1, since nothing updates these fields. So all
    agents are always ready and tied, and the ranking by success rate that
    [allocateSubtasks] uses is the order of registration. *)
Theorem built_agents_as_registered (c : MultiAgentCoordinator) :
  built c ->
  NoDup (map fst (agents c)) /\
  Forall (fun entry => exists agent, snd entry = registered agent) (agents c) /\
  readyAgents c = agents c.
Proof.
  intros Hb.
  destruct (built_invariant c Hb) as [Hnd Hreg]. split; [exact Hnd|]. split; [exact Hreg|].
  unfold readyAgents. rewrite filter_all.
  - apply sort_descending_id.
    apply (constant_key_descending _ 1%float); [reflexivity|].
    eapply Forall_impl; [|exact Hreg]. now intros [a d] [agent ->].
  - eapply Forall_impl; [|exact Hreg]. now intros [a d] [agent ->].
Qed.

Lemma built_agents_as_registered_witness :
  built coordinator_registered /\
  readyAgents coordinator_registered = agents coordinator_registered.
Proof.
  assert (Hb : built coordinator_registered)
    by (apply built_register, built_register, built_new).
  split; [exact Hb|].
  apply (built_agents_as_registered coordinator_registered Hb).
Defined.

(** ** Outcome and status *)

Lemma map_get_In {V : Type} (k : string) (v : V) (m : list (string * V)) :
  map_get String.eqb k m = Some v -> In (k, v) m.
Proof.
  induction m as [|[k' v'] m IH]; cbn; [discriminate|].
  destruct (String.eqb_spec k' k) as [->|_].
  - intros [= ->]. now left.
  - intros H. right. now apply IH.
Qed.

Lemma dispatch_settles (ags : list (string * AgentData))
    (assignments : list (string * Subtask)) :
  (forall a s d, In (a, s) assignments -> map_get String.eqb a ags = Some d ->
                 exists p, instance d s = Normal p /\ p <> Unsettled) ->
  exists ps rs, dispatch ags assignments = Normal ps /\ allSettled ps = Some rs.
Proof.
  induction assignments as [|[a s] rest IH]; intros H; cbn [dispatch].
  - exists [], []. now split.
  - destruct IH as (ps & rs & Hd & Hs); [intros b t d Hin; apply H; now right|].
    destruct (map_get String.eqb a ags) as [d|] eqn:Ha; [|now exists ps, rs].
    destruct (H a s d (or_introl eq_refl) Ha) as (p & Hp & Hu).
    rewrite Hp, Hd.
    destruct p as [v|e|]; [| |congruence];
      eexists; eexists; (split; [reflexivity|]);
      cbn [allSettled execution then_ catch_]; rewrite Hs; reflexivity.
Qed.

(** X9: A rejection never makes [distributeTask] fail: when the [execute] of
    every registered agent, on each of the subtasks, returns a promise that
    settles, by resolving or by rejecting, the call returns a summary (and
    the summary counts the rejections as failed results). *)
Theorem distributeTask_returns_when_settled (taskKey : string) (now : number)
    (task : string) (subtasks : list Subtask) (c : MultiAgentCoordinator) :
  (forall a d s, In (a, d) (agents c) -> In s subtasks ->
                 exists p, instance d s = Normal p /\ p <> Unsettled) ->
  exists summary,
    snd (distributeTask taskKey now task subtasks c) = Returned summary /\
    totalTasks summary = length (allocateSubtasks c subtasks).
Proof.
  intros H.
  destruct (dispatch_settles (agents c) (allocateSubtasks c subtasks)) as (ps & rs & Hd & Hs).
  { intros a s d Hin Ha. apply (H a d s); [now apply map_get_In|].
    destruct (allocate_fold_within (readyAgents c) subtasks ([], 0)) as [_ Hw].
    destruct (Hw a s Hin) as [[]|[Hsub _]]. exact Hsub. }
  pose proof (allSettled_handled ps (dispatch_handled _ _ ps Hd) rs Hs) as Hall.
  destruct (aggregateResults_fulfilled rs Hall) as (summary & Hagg & _).
  exists summary. unfold distributeTask, settledResults. rewrite Hd, Hs, Hagg.
  split; [reflexivity|].
  destruct (aggregateResults_lengths rs summary Hagg) as (-> & _).
  rewrite <- (length_map settled_agent).
  rewrite (dispatch_settled_agents _ _ (allocation_registered c subtasks) ps rs Hd Hs).
  apply length_map.
Qed.

Lemma distributeTask_returns_when_settled_witness :
  exists summary,
    snd (distributeTask "key" 0%float "task" three_subtasks coordinator_rejecting)
      = Returned summary /\
    totalTasks summary = 1.
Proof.
  destruct (distributeTask_returns_when_settled "key" 0%float "task" three_subtasks
              coordinator_rejecting) as (summary & H1 & H2).
  - intros a d s [E|[]] _. inversion E. eexists. split; [reflexivity | discriminate].
  - exists summary. split; [exact H1 | exact H2].
Defined.

Lemma dispatch_throws (ags : list (string * AgentData))
    (assignments : list (string * Subtask)) :
  (exists e, dispatch ags assignments = Throw e) <->
  (exists a s d e, In (a, s) assignments /\ map_get String.eqb a ags = Some d /\
                   instance d s = Throw e).
Proof.
  induction assignments as [|[a s] rest IH]; cbn [dispatch].
  - split; [intros [e H]; discriminate | intros (a & s & d & e & [] & _)].
  - destruct (map_get String.eqb a ags) as [d|] eqn:Ha.
    + destruct (instance d s) as [p|e] eqn:Hp.
      * destruct (dispatch ags rest) as [ps|e'] eqn:Hd.
        -- split; [intros [e H]; discriminate|].
           intros (b & t & d' & e & [E|Hin] & Hb & Ht).
           ++ inversion E; subst. congruence.
           ++ destruct (proj2 IH) as [e0 He0]; [now exists b, t, d', e | discriminate].
        -- split; [|intros _; now exists e'].
           intros _. destruct (proj1 IH) as (b & t & d' & e & Hin & Hb & Ht);
             [now exists e'|].
           exists b, t, d', e. repeat split; [now right | assumption | assumption].
      * split; [|intros _; now exists e].
        intros _. exists a, s, d, e. repeat split; [now left | assumption | assumption].
    + rewrite IH. split; intros (b & t & d' & e & Hin & Hb & Ht).
      * exists b, t, d', e. repeat split; [now right | assumption | assumption].
      * destruct Hin as [E|Hin]; [inversion E; subst; congruence|].
        now exists b, t, d', e.
Qed.

(** X10: The only way for [distributeTask] to fail is an [execute] that throws
    before it returns a promise: the call is rejected exactly when the
    [execute] of some assigned agent throws on its subtask, and then nothing
    has been stored. (A promise that rejects is turned into a failed result;
    the aggregation never throws.) *)
Theorem distributeTask_fails_only_on_throw (taskKey : string) (now : number)
    (task : string) (subtasks : list Subtask) (c : MultiAgentCoordinator) :
  ((exists e, snd (distributeTask taskKey now task subtasks c) = Threw e) <->
   (exists a s d e, In (a, s) (allocateSubtasks c subtasks) /\
                    map_get String.eqb a (agents c) = Some d /\
                    instance d s = Throw e)) /\
  (forall e, snd (distributeTask taskKey now task subtasks c) = Threw e ->
             fst (distributeTask taskKey now task subtasks c) = c).
Proof.
  rewrite <- dispatch_throws. unfold distributeTask, settledResults.
  destruct (dispatch (agents c) (allocateSubtasks c subtasks)) as [ps|e] eqn:Hd.
  - destruct (allSettled ps) as [rs|] eqn:Hs.
    + pose proof (allSettled_handled ps (dispatch_handled _ _ ps Hd) rs Hs) as Hall.
      destruct (aggregateResults_fulfilled rs Hall) as (summary & -> & _).
      cbn [fst snd]. split; [split; intros [e H]; discriminate | discriminate].
    + cbn [fst snd]. split; [split; intros [e H]; discriminate | discriminate].
  - cbn [fst snd]. split; [|reflexivity].
    split; intros _; now exists e.
Qed.

(** X11: [getStatus] on a coordinator built by [registerAgent] and
    [distributeTask] never reports progress: whatever tasks have been
    distributed, every agent is listed once, in the order of the registry,
    as ready with no task completed and success rate 1. *)
Theorem getStatus_never_reports_progress (c : MultiAgentCoordinator) :
  built c ->
  agentStats (getStatus c) =
    map (fun entry => {| stats_id := fst entry; stats_status := "ready";
                         stats_tasksCompleted := 0%float;
                         stats_successRate := 1%float |}) (agents c) /\
  agentsCount (getStatus c) = length (agentStats (getStatus c)) /\
  NoDup (map stats_id (agentStats (getStatus c))).
Proof.
  intros Hb.
  destruct (built_invariant c Hb) as [Hnd Hreg]. unfold getStatus. cbn [agentStats agentsCount].
  split; [|split].
  - apply map_ext_in. intros [a d] Hin. rewrite Forall_forall in Hreg.
    destruct (Hreg (a, d) Hin) as [agent E]. cbn [snd fst] in *. now rewrite E.
  - now rewrite length_map.
  - now rewrite map_map.
Qed.

Lemma getStatus_never_reports_progress_witness :
  built (fst (distributeTask "key" 0%float "task" three_subtasks coordinator_registered)) /\
  map stats_tasksCompleted
      (agentStats (getStatus (fst (distributeTask "key" 0%float "task" three_subtasks
                                     coordinator_registered)))) = [0%float; 0%float].
Proof.
  assert (Hb : built (fst (distributeTask "key" 0%float "task" three_subtasks
                             coordinator_registered)))
    by (apply built_distribute, built_register, built_register, built_new).
  split; [exact Hb|].
  destruct (getStatus_never_reports_progress _ Hb) as [H _].
  rewrite H. reflexivity.
Defined.

(** * Further properties of the replay system *)

(** ** The table only grows *)

Lemma touch_has (p k : string) (tbl : PatternTable) :
  map_has String.eqb k (touch p tbl) = (p =? k) || map_has String.eqb k tbl.
Proof.
  rewrite !map_has_get, touch_get.
  destruct (p =? k); [reflexivity|]. now destruct (map_get String.eqb k tbl).
Qed.

Lemma touch_all_has (k : string) (pats : list string) : forall tbl : PatternTable,
  map_has String.eqb k (fold_left (fun t p => touch p t) pats tbl) =
  existsb (fun p => p =? k) pats || map_has String.eqb k tbl.
Proof.
  induction pats as [|p pats IH]; intros tbl; [reflexivity|].
  cbn [fold_left existsb]. rewrite IH, touch_has.
  destruct (p =? k), (existsb (fun q => q =? k) pats); reflexivity.
Qed.

Lemma record_has (r : ReplaySystem) (x : Recording) (k : string) :
  map_has String.eqb k (patterns (record r x)) =
  existsb (fun p => p =? k) (session_patterns (session_of x))
  || map_has String.eqb k (patterns r).
Proof.
  destruct (record_spec r x) as (_ & -> & _).
  rewrite extractPatterns_snd, touch_all_has. cbn [session_of session_patterns].
  now rewrite (extractPatterns_fst_table (rec_actions x) (patterns r) []).
Qed.

(** X12: Recording never removes an entry of the pattern table: the entries that
    were there remain, and every signature of every session recorded has its
    entry afterwards, whether the session is still stored or has been
    evicted. The list of sessions is bounded by [maxReplays]; the table is
    not. *)
Theorem recordSession_never_forgets_patterns (r : ReplaySystem) (xs : list Recording) :
  (forall k, map_has String.eqb k (patterns r) = true ->
             map_has String.eqb k (patterns (record_all r xs)) = true) /\
  (forall x p, In x xs -> In p (session_patterns (session_of x)) ->
               map_has String.eqb p (patterns (record_all r xs)) = true).
Proof.
  revert r. induction xs as [|x xs IH]; intros r.
  - split; [auto | intros x p []].
  - cbn [record_all fold_left]. fold (record_all (record r x) xs).
    destruct (IH (record r x)) as [IH1 IH2]. split.
    + intros k Hk. apply IH1. rewrite record_has, Hk. apply orb_true_r.
    + intros y p [<-|Hy] Hp; [|now apply (IH2 y)].
      apply IH1. rewrite record_has. apply orb_true_iff. left.
      apply existsb_exists. exists p. split; [assumption | apply String.eqb_refl].
Qed.

(** ** Stores built by recording and learning *)

Lemma keys_has {V W : Type} (m : list (string * V)) (m' : list (string * W)) (k : string) :
  map fst m = map fst m' -> map_has String.eqb k m = map_has String.eqb k m'.
Proof.
  intros E. destruct (map_has String.eqb k m') eqn:H.
  - apply map_has_In. rewrite E. now apply map_has_In.
  - destruct (map_has String.eqb k m) eqn:H'; [|reflexivity].
    apply map_has_In in H'. rewrite E in H'. apply map_has_In in H'. congruence.
Qed.

Lemma learn_spec (threshold : number) (r : ReplaySystem) :
  config (snd (learnFromSuccessfulReplays threshold r)) = config r /\
  replays (snd (learnFromSuccessfulReplays threshold r)) = replays r /\
  map fst (patterns (snd (learnFromSuccessfulReplays threshold r))) = map fst (patterns r) /\
  patternsLearned (fst (learnFromSuccessfulReplays threshold r)) =
    length (filter (fun p => map_has String.eqb p (patterns r))
                   (flat_map session_patterns (filter (qualifies threshold) (replays r)))) /\
  successfulReplays (fst (learnFromSuccessfulReplays threshold r)) =
    length (filter (qualifies threshold) (replays r)) /\
  totalPatterns (fst (learnFromSuccessfulReplays threshold r)) = length (patterns r) /\
  (forall k, map_get String.eqb k (patterns (snd (learnFromSuccessfulReplays threshold r))) =
             option_map (credit (occurrence_rates k (filter (qualifies threshold) (replays r))))
                        (map_get String.eqb k (patterns r))).
Proof.
  unfold learnFromSuccessfulReplays.
  destruct (learn_replays_fold (filter (qualifies threshold) (replays r)) (patterns r) 0)
    as (Hn & Hk & Hg).
  destruct (fold_left learn_replay _ (patterns r, 0)) as [tbl learned].
  cbn [fst snd] in *.
  cbn [config replays patterns patternsLearned successfulReplays totalPatterns].
  repeat split; try assumption.
  rewrite <- (length_map fst tbl), Hk. apply length_map.
Qed.

Lemma covered_keys (r r' : ReplaySystem) :
  (forall k, map_has String.eqb k (patterns r) = true ->
             map_has String.eqb k (patterns r') = true) ->
  Forall (fun s => Forall (fun p => map_has String.eqb p (patterns r) = true)
                          (session_patterns s)) (replays r) ->
  Forall (fun s => Forall (fun p => map_has String.eqb p (patterns r') = true)
                          (session_patterns s)) (replays r).
Proof.
  intros Hk H. eapply Forall_impl; [|exact H].
  intros s Hs. eapply Forall_impl; [|exact Hs]. intros p. apply Hk.
Qed.

Lemma grown_invariant (r : ReplaySystem) :
  grown r ->
  NoDup (map fst (patterns r)) /\
  length (replays r) <= maxReplays (config r) /\
  covered r.
Proof.
  induction 1 as [cfg|x r Hg (Hnd & Hcap & Hcov)|threshold r Hg (Hnd & Hcap & Hcov)].
  - cbn. repeat split; [constructor | lia | constructor].
  - split; [now apply record_NoDup|].
    destruct (record_within r x Hcap) as [Hrep Hlen].
    destruct (record_spec r x) as (Hcfg & _ & _).
    split; [now rewrite Hcfg|].
    unfold covered. rewrite Hrep.
    assert (Hall : Forall (fun s => Forall (fun p => map_has String.eqb p (patterns (record r x)) = true)
                                           (session_patterns s))
                          (replays r ++ [session_of x])).
    { apply Forall_app. split.
      - apply (covered_keys r (record r x)); [|exact Hcov].
        intros k Hk. rewrite record_has, Hk. apply orb_true_r.
      - constructor; [|constructor]. apply Forall_forall. intros p Hp.
        rewrite record_has. apply orb_true_iff. left.
        apply existsb_exists. exists p. split; [assumption | apply String.eqb_refl]. }
    apply Forall_forall. intros s Hs. rewrite Forall_forall in Hall. apply Hall.
    rewrite <- (firstn_skipn (length (replays r) + 1 - maxReplays (config r))
                             (replays r ++ [session_of x])).
    apply in_or_app. now right.
  - destruct (learn_spec threshold r) as (Hcfg & Hrep & Hkeys & _).
    split; [now apply learn_NoDup|]. split; [now rewrite Hrep, Hcfg|].
    unfold covered. rewrite Hrep.
    apply (covered_keys r); [|exact Hcov].
    intros k Hk. now rewrite (keys_has _ (patterns r) k Hkeys).
Qed.

(** X13: In a replay system built from a new one by recording and learning, every
    signature of every stored session has its entry in the table, the table
    has one entry per signature, and the sessions are within the capacity.
    So the test [patterns.has(pattern)] of [learnFromSuccessfulReplays] never
    fails there: [patternsLearned] is the total number of signatures of the
    sessions that reach the threshold. *)
Theorem grown_learns_every_signature (threshold : number) (r : ReplaySystem) :
  grown r ->
  covered r /\
  NoDup (map fst (patterns r)) /\
  length (replays r) <= maxReplays (config r) /\
  patternsLearned (fst (learnFromSuccessfulReplays threshold r)) =
    length (flat_map session_patterns (filter (qualifies threshold) (replays r))).
Proof.
  intros Hg. destruct (grown_invariant r Hg) as (Hnd & Hcap & Hcov).
  repeat split; try assumption.
  destruct (learn_spec threshold r) as (_ & _ & _ & -> & _).
  f_equal. apply filter_all.
  apply Forall_forall. intros p Hp. apply in_flat_map in Hp.
  destruct Hp as [s [Hs Hp]]. apply filter_In in Hs as [Hs _].
  unfold covered in Hcov. rewrite Forall_forall in Hcov.
  specialize (Hcov s Hs). rewrite Forall_forall in Hcov. now apply Hcov.
Qed.

Lemma grown_learns_every_signature_witness :
  grown store_scenario /\
  patternsLearned (fst (learnFromSuccessfulReplays 0.3%float store_scenario)) = 3.
Proof.
  assert (Hg : grown store_scenario)
    by (apply grown_record, grown_record, grown_new).
  split; [exact Hg|].
  destruct (grown_learns_every_signature 0.3%float store_scenario Hg) as (_ & _ & _ & H).
  rewrite H. reflexivity.
Defined.

(** ** Learning again *)

(** X14: Learning does not remember what it has learned from: a second call with
    the same threshold finds the same sessions, returns the same statistics
    and adds their success rates to the entries once more, so that every
    entry has been credited twice. *)
Theorem learning_twice_credits_twice (threshold : number) (r : ReplaySystem) :
  let r1 := snd (learnFromSuccessfulReplays threshold r) in
  let r2 := snd (learnFromSuccessfulReplays threshold r1) in
  let good := filter (qualifies threshold) (replays r) in
  fst (learnFromSuccessfulReplays threshold r1) =
    fst (learnFromSuccessfulReplays threshold r) /\
  replays r2 = replays r /\
  map fst (patterns r2) = map fst (patterns r) /\
  (forall k, map_get String.eqb k (patterns r2) =
             option_map (credit (occurrence_rates k good ++ occurrence_rates k good))
                        (map_get String.eqb k (patterns r))).
Proof.
  cbv zeta.
  destruct (learn_spec threshold r) as (_ & Hrep & Hkeys & Hn & Hs & Ht & Hg).
  destruct (learn_spec threshold (snd (learnFromSuccessfulReplays threshold r)))
    as (_ & Hrep' & Hkeys' & Hn' & Hs' & Ht' & Hg').
  repeat split.
  - destruct (fst (learnFromSuccessfulReplays threshold
                     (snd (learnFromSuccessfulReplays threshold r)))) as [s1 p1 t1].
    destruct (fst (learnFromSuccessfulReplays threshold r)) as [s0 p0 t0].
    cbn [successfulReplays patternsLearned totalPatterns] in *.
    rewrite Hs', Hn', Ht', Hs, Hn, Ht, Hrep. f_equal.
    + f_equal. apply filter_ext. intros p. now apply keys_has.
    + now rewrite <- (length_map fst), Hkeys, length_map.
  - now rewrite Hrep', Hrep.
  - now rewrite Hkeys', Hkeys.
  - intros k. rewrite Hg', Hg, Hrep.
    destruct (map_get String.eqb k (patterns r)) as [d|]; [|reflexivity].
    cbn [option_map]. now rewrite credit_app.
Qed.

(** ** Rates that are not numbers *)

(** X15: A comparison with NaN is false, so learning passes over it in silence: a
    session whose success rate is NaN (the rate that [aggregateResults] gives
    for no result) is never learned from, whatever the threshold, and with a
    threshold that is NaN no session is. When every session is such, or the
    threshold is, the call changes nothing and reports zero sessions and zero
    patterns learned. *)
Theorem learning_skips_nan (threshold : number) (r : ReplaySystem) :
  PrimFloat.is_nan threshold = true \/
  Forall (fun s => PrimFloat.is_nan (session_successRate s) = true) (replays r) ->
  learnFromSuccessfulReplays threshold r =
    ({| successfulReplays := 0; patternsLearned := 0;
        totalPatterns := length (patterns r) |}, r).
Proof.
  intros H.
  assert (Hnone : filter (qualifies threshold) (replays r) = []).
  { apply filter_none. intros s Hs. unfold qualifies.
    destruct (threshold <=? session_successRate s)%float eqn:E; [|reflexivity].
    apply leb_not_nan in E as [Nt Ns].
    destruct H as [H|H]; [congruence|].
    rewrite Forall_forall in H. specialize (H s Hs). congruence. }
  unfold learnFromSuccessfulReplays. rewrite Hnone. cbn. now destruct r.
Qed.

Lemma learning_skips_nan_witness :
  Forall (fun s => PrimFloat.is_nan (session_successRate s) = true)
         (replays store_nan_rate) /\
  learnFromSuccessfulReplays neg_infinity store_nan_rate =
    ({| successfulReplays := 0; patternsLearned := 0; totalPatterns := 0 |},
     store_nan_rate).
Proof.
  assert (H : Forall (fun s => PrimFloat.is_nan (session_successRate s) = true)
                     (replays store_nan_rate)) by (repeat constructor).
  split; [exact H|].
  apply (learning_skips_nan neg_infinity store_nan_rate (or_intror H)).
Defined.

(** ** The best entries *)

Lemma StronglySorted_split {A : Type} (R : A -> A -> Prop) (n : nat) (l : list A) :
  StronglySorted R l ->
  Forall (fun a => Forall (R a) (skipn n l)) (firstn n l).
Proof.
  intros H. revert n. induction H as [|x l Hs IH Hx]; intros [|n]; cbn [firstn skipn];
    try constructor; auto.
  apply Forall_forall. intros y Hy. rewrite Forall_forall in Hx.
  apply Hx. rewrite <- (firstn_skipn n l). apply in_or_app. now right.
Qed.

(** X16: The entries that [getRecommendedPatterns] returns are the best of the
    table (for [topK >= 0] and entries whose [successTotal] is a number and
    whose [count] is finite): the scores of the table are the returned ones
    together with others, none of which is ranked above a returned one, and
    nothing is left out when [topK] is at least the size of the table. *)
Theorem getRecommendedPatterns_returns_best
    (currentContext : string) (topK : Z) (r : ReplaySystem) :
  (0 <= topK)%Z ->
  table_finite (patterns r) = true ->
  exists others,
    Permutation (getRecommendedPatterns currentContext topK r ++ others)
                (map score (patterns r)) /\
    Forall (fun a => Forall (ranked a) others)
           (getRecommendedPatterns currentContext topK r) /\
    ((Z.of_nat (length (patterns r)) <= topK)%Z -> others = []).
Proof.
  intros Hk Hfin. unfold getRecommendedPatterns.
  set (sorted := sort _ (map score (patterns r))).
  rewrite slice0_firstn by assumption.
  exists (skipn (Z.to_nat topK) sorted). split; [|split].
  - rewrite firstn_skipn. apply sort_perm.
  - apply StronglySorted_split. apply (sort_sorted score_successRate).
    apply Forall_forall. intros s Hs. apply in_map_iff in Hs.
    destruct Hs as [e [<- He]]. apply score_not_nan.
    unfold table_finite in Hfin. rewrite forallb_forall in Hfin. now apply Hfin.
  - intros Hall. apply skipn_all2. unfold sorted.
    rewrite (Permutation_length (sort_perm _ _)), length_map. lia.
Qed.

Lemma getRecommendedPatterns_returns_best_witness :
  exists others,
    Permutation (getRecommendedPatterns "" 1 store_scenario ++ others)
                (map score (patterns store_scenario)) /\
    Forall (fun a => Forall (ranked a) others) (getRecommendedPatterns "" 1 store_scenario).
Proof.
  destruct (getRecommendedPatterns_returns_best "" 1 store_scenario) as (o & H1 & H2 & _).
  - lia.
  - reflexivity.
  - exists o. split; assumption.
Defined.

(** X17: Sorting is stable: when the entries of the table are already in
    non-increasing order of score, in particular when their scores are all
    equal, [getRecommendedPatterns] returns the first [topK] entries in the
    order of the table (the order in which the signatures were first seen). *)
Theorem getRecommendedPatterns_keeps_table_order
    (currentContext : string) (topK : nat) (r : ReplaySystem) :
  StronglySorted ranked (map score (patterns r)) ->
  getRecommendedPatterns currentContext (Z.of_nat topK) r =
    firstn topK (map score (patterns r)).
Proof.
  intros Hs. unfold getRecommendedPatterns.
  rewrite slice0_firstn, Nat2Z.id by lia.
  now rewrite (sort_descending_id score_successRate).
Qed.

Lemma getRecommendedPatterns_keeps_table_order_witness :
  StronglySorted ranked (map score (patterns store_two)) /\
  map pattern (getRecommendedPatterns "" 5 store_two) = ["m-c-k"; "c-k-m"].
Proof.
  assert (Hs : StronglySorted ranked (map score (patterns store_two))).
  { repeat constructor. }
  split; [exact Hs|].
  change 5%Z with (Z.of_nat 5).
  now rewrite (getRecommendedPatterns_keeps_table_order "" 5 store_two Hs).
Defined.

(** ** Before any learning *)

Lemma zero_div_pos (c : float) : (0 <? c)%float = true -> (0 / c)%float = 0%float.
Proof.
  rewrite FloatAxioms.ltb_spec. intros H.
  rewrite <- (FloatAxioms.SF2Prim_Prim2SF (0 / c)), FloatAxioms.div_spec.
  change (Prim2SF 0) with (S754_zero false). change (Prim2SF 0) with (S754_zero false) in H.
  destruct (Prim2SF c) as [s|s| |s m e]; try discriminate;
    destruct s; try discriminate; reflexivity.
Qed.

Lemma map_update_Forall {V : Type} (P : string * V -> Prop) (k : string) (f : V -> V)
    (m : list (string * V)) :
  (forall k' v, P (k', v) -> P (k', f v)) -> Forall P m ->
  Forall P (map_update String.eqb k f m).
Proof.
  intros Hf. induction 1 as [|[k' v'] m Hx Hm IH]; cbn [map_update]; [constructor|].
  destruct (k' =? k); constructor; auto.
Qed.

Lemma record_all_unlearned (xs : list Recording) : forall r,
  Forall (fun e => successTotal (snd e) = 0%float) (patterns r) ->
  Forall (fun e => successTotal (snd e) = 0%float) (patterns (record_all r xs)).
Proof.
  induction xs as [|x xs IH]; intros r H; [exact H|].
  cbn [record_all fold_left]. fold (record_all (record r x) xs). apply IH.
  destruct (record_spec r x) as (_ & -> & _). rewrite extractPatterns_snd.
  generalize (fst (extractPatterns (rec_actions x) (patterns r))). intros pats.
  revert H. generalize (patterns r). induction pats as [|p pats IHp]; intros tbl H; [exact H|].
  cbn [fold_left]. apply IHp. unfold touch.
  apply map_update_Forall; [now intros k' v|].
  destruct (map_has String.eqb p tbl); [exact H|].
  apply map_set_Forall; [reflexivity | exact H].
Qed.

(** X18: As long as nothing has been learned, recommendations do not rank: after
    any number of recordings on a new system every success rate is 0, and
    [getRecommendedPatterns] returns the first [topK] signatures of the
    table, in the order in which they were first seen, however often each
    of them occurred. *)
Theorem recommendations_before_learning (cfg : Config) (xs : list Recording)
    (currentContext : string) (topK : nat) :
  getRecommendedPatterns currentContext (Z.of_nat topK)
      (record_all (new_ReplaySystem cfg) xs) =
    firstn topK (map score (patterns (record_all (new_ReplaySystem cfg) xs))) /\
  Forall (fun s => score_successRate s = 0%float)
         (map score (patterns (record_all (new_ReplaySystem cfg) xs))).
Proof.
  assert (Hzero : Forall (fun s => score_successRate s = 0%float)
                    (map score (patterns (record_all (new_ReplaySystem cfg) xs)))).
  { apply Forall_map.
    eapply Forall_impl; [|apply record_all_unlearned; constructor].
    intros [p d] H. cbn [snd] in H. unfold score. cbn [score_successRate]. rewrite H.
    destruct (0 <? count d)%float eqn:E; [now apply zero_div_pos | reflexivity]. }
  split; [|exact Hzero].
  unfold getRecommendedPatterns. rewrite slice0_firstn, Nat2Z.id by lia.
  rewrite (sort_descending_id score_successRate); [reflexivity|].
  now apply (constant_key_descending _ 0%float).
Qed.

(** ** Statistics *)

(** X19: [getStats] lists three top patterns, or all of them when the table has
    fewer, and never fails on a system without sessions: the average is then
    0 (the division is guarded, unlike the one of [aggregateResults]). *)
Theorem getStats_top_three (r : ReplaySystem) :
  length (topPatterns (getStats r)) = Nat.min 3 (stats_totalPatterns (getStats r)) /\
  (forall s, In s (topPatterns (getStats r)) -> In s (map score (patterns r))) /\
  (replays r = [] -> stats_averageSuccessRate (getStats r) = 0%float).
Proof.
  unfold getStats. cbn [topPatterns stats_totalPatterns stats_averageSuccessRate].
  unfold getRecommendedPatterns. rewrite slice0_firstn by lia.
  repeat split.
  - rewrite length_firstn, (Permutation_length (sort_perm _ _)), length_map.
    reflexivity.
  - intros s Hs. eapply Permutation_in; [apply sort_perm|].
    rewrite <- (firstn_skipn (Z.to_nat 3)). apply in_or_app. left. exact Hs.
  - intros ->. reflexivity.
Qed.

(** ** Loading *)





Lemma map_set_keys_same {K V : Type} (same : K -> K -> bool) (k : K) (v : V)
    (m : list (K * V)) :
  map fst (map_set same k v m) =
  if map_has same k m then map fst m else (map fst m ++ [k])%list.
Proof.
  induction m as [|[k' v'] m IH]; cbn; [reflexivity|].
  destruct (same k' k); cbn; [reflexivity|].
  rewrite IH. now destruct (map_has same k m).
Qed.

Lemma map_has_none {K V : Type} (same : K -> K -> bool) (k : K) (m : list (K * V)) :
  map_has same k m = false -> Forall (fun k' => same k' k = false) (map fst m).
Proof.
  induction m as [|[k' v'] m IH]; cbn; [constructor|].
  intros H. apply orb_false_iff in H as [H1 H2]. constructor; auto.
Qed.

Lemma ForallOrdPairs_snoc {A : Type} (R : A -> A -> Prop) (l : list A) (x : A) :
  ForallOrdPairs R l -> Forall (fun a => R a x) l -> ForallOrdPairs R (l ++ [x]).
Proof.
  induction 1 as [|a l Ha Hl IH]; intros Hx; cbn.
  - repeat constructor.
  - inversion Hx; subst. constructor; [|now apply IH].
    apply Forall_app. split; [assumption | now repeat constructor].
Qed.

Lemma map_set_distinct (k v : jsvalue) (m : list (jsvalue * jsvalue)) :
  distinct_keys m -> distinct_keys (map_set same_value_zero k v m).
Proof.
  unfold distinct_keys. intros H. rewrite map_set_keys_same.
  destruct (map_has same_value_zero k m) eqn:E; [assumption|].
  apply ForallOrdPairs_snoc; [assumption | now apply map_has_none].
Qed.

Lemma map_of_entries_distinct (items : list jsvalue) :
  forall acc t, distinct_keys acc -> map_of_entries items acc = Normal t ->
                distinct_keys t.
Proof.
  induction items as [|item items IH]; intros acc t Hacc; cbn [map_of_entries].
  - now intros [= <-].
  - destruct (entry_of item) as [[k v]|]; [|discriminate].
    apply IH. now apply map_set_distinct.
Qed.

(** X21: A load that reports success replaces the state and does not merge: what
    is installed depends on the file only, not on the sessions and the table
    held before; and the table installed is a [Map], with one entry per key
    even when the file lists a key more than once. *)
Theorem loadReplays_replaces (read : option file_content) (m : Memory) :
  fst (loadReplays read m) = true ->
  distinct_keys (mem_patterns (snd (loadReplays read m))) /\
  forall m', loadReplays read m' = loadReplays read m.
Proof.
  destruct read as [[|parsed]|]; try discriminate. unfold loadReplays.
  destruct (member parsed "replays") as [rs|]; [|discriminate].
  destruct (member parsed "patterns") as [ps|]; [|discriminate].
  destruct (new_Map (or_else ps (VArr []))) as [table|] eqn:Ht; [|discriminate].
  intros _. cbn [fst snd mem_patterns mem_replays]. split; [|reflexivity].
  unfold new_Map in Ht.
  destruct (or_else ps (VArr [])) as [| | | |s|items|]; try discriminate.
  - inversion Ht. constructor.
  - inversion Ht. constructor.
  - destruct (s =? ""); [|discriminate]. inversion Ht. constructor.
  - apply (map_of_entries_distinct items [] table); [constructor | assumption].
Qed.

Lemma loadReplays_replaces_witness :
  loadReplays (Some snapshot_duplicate) (memory_of store_two) =
    (true, {| mem_replays := VArr [];
              mem_patterns := [(VStr "a", VNum 3%float); (VStr "b", VNum 2%float)] |}) /\
  distinct_keys (mem_patterns (snd (loadReplays (Some snapshot_duplicate)
                                                (memory_of store_two)))).
Proof.
  split; [reflexivity|].
  apply (loadReplays_replaces (Some snapshot_duplicate) (memory_of store_two)).
  reflexivity.
Defined.

(** ** A second round trip *)







